(** * Verification of the vector-index adapter and the document result parser

    Shallow embedding of
    - [packages/azure-ai-search/src/azure-search-vector.ts]
      (class [AzureAISearchVector]) and
    - [packages/document-intelligence/src/processor.ts]
      (method [AzureDocumentProcessor.parseAnalyzeResult]), and of the
      use that
    - [apps/mastra/src/mastra/tools/rag-tools.ts]
      ([ingestDocumentTool], [searchDocumentsTool]) makes of the adapter.

    The adapter is asynchronous code that talks to a search service.  It is
    embedded in a state-and-exception monad: the state records every call
    sent to the service (in order), the per-index client cache and the
    number of identifiers drawn from the random generator; an exception is a
    rejected promise.  The service is an arbitrary function of the history
    of calls, so every theorem holds for every behaviour of the service. *)

Set Warnings "-register-all,-abstract-large-number".
From Stdlib Require Import ZArith Ascii String List Lia.
From stdpp Require Import base gmap list strings option pretty.
From Equations Require Import Equations.

(* ===================================================================== *)
(** * Part I.  The model                                                 *)
(* ===================================================================== *)

(** ** JavaScript values

    [number] is the type of JavaScript numbers.  The adapter never computes
    with them (vector components, scores and metadata values are carried
    around), so it stays a parameter.  Objects are finite maps from property
    names to values; an array also carries named properties, because
    [a.text = v] on an array adds one. *)

Inductive JSValue (number : Type) : Type :=
| JUndefined
| JNull
| JBool (b : bool)
| JNum (n : number)
| JStr (s : string)
| JArr (elems : list (JSValue number)) (named : gmap string (JSValue number))
| JObj (props : gmap string (JSValue number)).

Arguments JUndefined {number}.
Arguments JNull {number}.
Arguments JBool {number} b.
Arguments JNum {number} n.
Arguments JStr {number} s.
Arguments JArr {number} elems named.
Arguments JObj {number} props.

(** What a rejected promise carries: the error of the search service, passed
    on unchanged, or a [TypeError] raised by the language itself. *)
Inductive Thrown : Type :=
| BackendFailure (e : string)
| TypeError (msg : string).

Inductive Outcome (A : Type) : Type :=
| Fulfilled (a : A)
| Rejected (e : Thrown).

Arguments Fulfilled {A} a.
Arguments Rejected {A} e.

(** The host environment: everything the code uses that is neither in the
    repository nor the search service. *)
Record JSRuntime (number : Type) : Type := {
  (** the number [0] *)
  zero : number;
  (** [ToBoolean] on numbers: false for [0], [-0] and [NaN] *)
  number_truthy : number -> bool;
  (** [JSON.stringify] on a value without cycles *)
  JSON_stringify : JSValue number -> string;
  (** [JSON.parse]; [None] is a [SyntaxError] *)
  JSON_parse : string -> option (JSValue number);
  (** [String(v)] *)
  ToString : JSValue number -> string;
  (** the [n]-th identifier that [crypto.randomUUID()] produces *)
  randomUUID : nat -> string
}.

Arguments zero {number} _.
Arguments number_truthy {number} _ _.
Arguments JSON_stringify {number} _ _.
Arguments JSON_parse {number} _ _.
Arguments ToString {number} _ _.
Arguments randomUUID {number} _ _.

Section js_values.
Context {number : Type} (rt : JSRuntime number).

Definition js_nullish (v : JSValue number) : bool :=
  match v with
  | JUndefined | JNull => true
  | _ => false
  end.

(** [a ?? b] *)
Definition js_coalesce (a b : JSValue number) : JSValue number :=
  if js_nullish a then b else a.

(** [obj.k] on a plain object: a missing property reads [undefined] *)
Definition js_get (obj : gmap string (JSValue number)) (k : string)
  : JSValue number :=
  default JUndefined (obj !! k).

(** [ToBoolean] *)
Definition js_truthy (v : JSValue number) : bool :=
  match v with
  | JUndefined | JNull => false
  | JBool b => b
  | JNum n => number_truthy rt n
  | JStr s => negb (String.eqb s "")
  | JArr _ _ | JObj _ => true
  end.

(** [typeof v === "string"] *)
Definition js_is_string (v : JSValue number) : bool :=
  match v with
  | JStr _ => true
  | _ => false
  end.

(** [target.k = v] in strict code, for a [k] that is neither an array
    index nor [length]: objects and arrays take the property, every
    primitive, [null] and [undefined] raise a [TypeError]. *)
Definition js_set_prop (target : JSValue number) (k : string)
    (v : JSValue number) : Outcome (JSValue number) :=
  match target with
  | JObj props => Fulfilled (JObj (<[k := v]> props))
  | JArr elems named => Fulfilled (JArr elems (<[k := v]> named))
  | _ => Rejected (TypeError "cannot set a property on a primitive value")
  end.
End js_values.

(** [a.slice(i, j)] for [0 <= i <= j] *)
Definition js_slice {A : Type} (i j : nat) (a : list A) : list A :=
  take (j - i) (drop i a).

(** [a[i] = v] on an array whose empty slots are [None]: inside the array the
    slot is overwritten, beyond its end the array grows and the slots in
    between stay empty. *)
Definition js_array_set {A : Type} (a : list (option A)) (i : nat) (v : A)
  : list (option A) :=
  if decide (i < length a) then <[i := Some v]> a
  else a ++ replicate (i - length a) None ++ [Some v].

(** [a.join(sep)] on an array of strings *)
Fixpoint js_join (sep : string) (a : list string) : string :=
  match a with
  | [] => ""
  | [s] => s
  | s :: rest => s +:+ sep +:+ js_join sep rest
  end.

(** ** The data model of the search service *)

(** [AzureSearchFilter] of [types.ts]: an optional OData string. *)
Record AzureSearchFilter : Type := {
  odata : option string
}.

(** The metric of the generic vector-store contract. *)
Inductive Metric : Type := cosine | euclidean | dotproduct.

(** The index schema of the service.  An optional property is an [option];
    the service's metric is a string, as the code compares it to string
    literals. *)
Record HnswParameters : Type := {
  hnsw_metric : option string;
  hnsw_m : nat;
  hnsw_efConstruction : nat;
  hnsw_efSearch : nat
}.

Record Algorithm : Type := {
  alg_name : string;
  alg_kind : string;
  alg_parameters : option HnswParameters
}.

Record Profile : Type := {
  profile_name : string;
  profile_algorithmConfigurationName : string
}.

Record VectorSearch : Type := {
  vs_algorithms : option (list Algorithm);
  vs_profiles : option (list Profile)
}.

(** [field_vectorSearchDimensions] is [None] when the field object has no
    such property (["vectorSearchDimensions" in field] is false),
    [Some None] when it has it with a nullish value. *)
Record SearchField : Type := {
  field_name : string;
  field_type : string;
  field_key : option bool;
  field_searchable : option bool;
  field_filterable : option bool;
  field_vectorSearchDimensions : option (option nat);
  field_vectorSearchProfileName : option string
}.

Record SearchIndex : Type := {
  index_name : string;
  index_fields : option (list SearchField);
  index_vectorSearch : option VectorSearch
}.

Record IndexStats : Type := {
  stats_dimension : nat;
  stats_count : nat;
  stats_metric : Metric
}.

Section documents.
Context {number : Type}.

(** A document as [upsert] uploads it. *)
Record Document : Type := {
  doc_id : string;
  doc_vector : list number;
  doc_metadata : string;
  doc_text : JSValue number
}.

(** A partial document as [updateVector] merges it: only the properties
    that are present are changed. *)
Record MergeDocument : Type := {
  merge_id : string;
  merge_vector : option (list number);
  merge_metadata : option string;
  merge_text : option (JSValue number)
}.

Record VectorQuery : Type := {
  vq_kind : string;
  vq_vector : list number;
  vq_kNearestNeighborsCount : nat;
  vq_fields : list string
}.

Record SearchOptions : Type := {
  so_queries : list VectorQuery;
  so_filter : option string;
  so_top : nat;
  so_select : list string
}.

(** One search result: [result.score] and the selected properties of
    [result.document]. *)
Record SearchHit : Type := {
  hit_score : option number;
  hit_id : string;
  hit_metadata : JSValue number;
  hit_text : JSValue number;
  hit_vector : option (list number)
}.

Record QueryResult : Type := {
  qr_id : string;
  qr_score : number;
  qr_metadata : JSValue number;
  qr_vector : option (list number)
}.

(** The calls of [SearchIndexClient] and [SearchClient] that the adapter
    makes.  A [SearchClient] is bound to an index, whose name is the first
    argument here. *)
Inductive Call : Type :=
| CreateOrUpdateIndex (index : SearchIndex)
| ListIndexes
| GetIndex (indexName : string)
| DeleteIndex (indexName : string)
| GetDocumentsCount (indexName : string)
| UploadDocuments (indexName : string) (documents : list Document)
| MergeDocuments (indexName : string) (documents : list MergeDocument)
| DeleteDocuments (indexName : string) (ids : list string)
| Search (indexName : string) (searchText : string) (options : SearchOptions).

(** What each call resolves to when the service accepts it.  A search
    resolves to all its results, in the order the result iterator yields
    them. *)
Definition reply (c : Call) : Type :=
  match c with
  | CreateOrUpdateIndex _ => unit
  | ListIndexes => list string
  | GetIndex _ => SearchIndex
  | DeleteIndex _ => unit
  | GetDocumentsCount _ => nat
  | UploadDocuments _ _ => unit
  | MergeDocuments _ _ => unit
  | DeleteDocuments _ _ => unit
  | Search _ _ _ => list SearchHit
  end.

(** The search service: given the calls made so far and a new call, it
    answers with an error or with a reply.  Nothing is assumed of it. *)
Definition Backend : Type :=
  list Call -> forall c : Call, string + reply c.

(** ** The state of the adapter and its monad *)

Record AdapterState : Type := {
  (** the calls made to the service, oldest first *)
  st_trace : list Call;
  (** the keys of [this.searchClients] *)
  st_searchClients : gset string;
  (** how many identifiers [crypto.randomUUID] has produced *)
  st_uuids : nat
}.

Definition M (A : Type) : Type := AdapterState -> Outcome A * AdapterState.

Definition ret {A : Type} (a : A) : M A := fun st => (Fulfilled a, st).

Definition bind {A B : Type} (c : M A) (k : A -> M B) : M B :=
  fun st =>
    match c st with
    | (Fulfilled a, st') => k a st'
    | (Rejected e, st') => (Rejected e, st')
    end.

(** A synchronous computation that may throw, run inside an async method. *)
Definition lift {A : Type} (o : Outcome A) : M A := fun st => (o, st).

(** The promise of a call: rejected with the error of the service, or
    fulfilled with its reply. *)
Definition answer (be : Backend) (history : list Call) (c : Call)
  : Outcome (reply c) :=
  match be history c with
  | inl e => Rejected (BackendFailure e)
  | inr r => Fulfilled r
  end.

(** [await client.call(...)]: the call is recorded, and the service's answer
    to it, after the calls recorded before, is the result. *)
Definition await (be : Backend) (c : Call) : M (reply c) :=
  fun st =>
    (answer be (st_trace st) c,
     {| st_trace := st_trace st ++ [c];
        st_searchClients := st_searchClients st;
        st_uuids := st_uuids st |}).

End documents.

Arguments Document : clear implicits.
Arguments MergeDocument : clear implicits.
Arguments VectorQuery : clear implicits.
Arguments SearchOptions : clear implicits.
Arguments SearchHit : clear implicits.
Arguments QueryResult : clear implicits.
Arguments Call : clear implicits.
Arguments Backend : clear implicits.
Arguments AdapterState : clear implicits.
Arguments M : clear implicits.

Declare Scope adapter_scope.
Delimit Scope adapter_scope with adapter.
Notation "x <- c ;; k" := (bind c (fun x => k))
  (at level 100, c at next level, right associativity) : adapter_scope.
Notation "c ;;; k" := (bind c (fun _ => k))
  (at level 100, right associativity) : adapter_scope.

(** ** [AzureAISearchVector] *)

Section adapter_params.
Context {number : Type}.

Record CreateIndexParams : Type := {
  ci_indexName : string;
  ci_dimension : nat;
  ci_metric : option Metric
}.

Record UpsertVectorParams : Type := {
  up_indexName : string;
  up_vectors : list (list number);
  up_metadata : option (list (gmap string (JSValue number)));
  up_ids : option (list string);
  up_deleteFilter : option (JSValue number)
}.

Record QueryVectorParams : Type := {
  q_indexName : string;
  q_queryVector : list number;
  q_topK : option nat;
  q_filter : option AzureSearchFilter;
  q_includeVector : option bool
}.

Record VectorUpdate : Type := {
  update_vector : option (list number);
  update_metadata : option (gmap string (JSValue number))
}.

(** [uv_id] and [uv_filter] are the two optional properties [id] and
    [filter] of the parameter object. *)
Record UpdateVectorParams : Type := {
  uv_indexName : string;
  uv_id : option string;
  uv_filter : option AzureSearchFilter;
  uv_update : VectorUpdate
}.

Record DeleteVectorParams : Type := {
  dv_indexName : string;
  dv_id : string
}.

Record DeleteVectorsParams : Type := {
  dvs_indexName : string;
  dvs_ids : option (list string);
  dvs_filter : option AzureSearchFilter
}.

End adapter_params.

Arguments UpsertVectorParams : clear implicits.
Arguments QueryVectorParams : clear implicits.
Arguments VectorUpdate : clear implicits.
Arguments UpdateVectorParams : clear implicits.

Section adapter.
Context {number : Type} (rt : JSRuntime number) (be : Backend number).

Local Open Scope adapter_scope.

(** [getSearchClient]: the client of an index is created on first use and
    kept in [this.searchClients]; the client is identified with the name of
    its index. *)
Definition getSearchClient (indexName : string) : M number string :=
  fun st =>
    (Fulfilled indexName,
     {| st_trace := st_trace st;
        st_searchClients :=
          if decide (indexName ∈ st_searchClients st)
          then st_searchClients st
          else {[indexName]} ∪ st_searchClients st;
        st_uuids := st_uuids st |}).

(** [this.searchClients.delete(indexName)] *)
Definition searchClients_delete (indexName : string) : M number unit :=
  fun st =>
    (Fulfilled tt,
     {| st_trace := st_trace st;
        st_searchClients := st_searchClients st ∖ {[indexName]};
        st_uuids := st_uuids st |}).

(** [crypto.randomUUID()] *)
Definition crypto_randomUUID : M number string :=
  fun st =>
    (Fulfilled (randomUUID rt (st_uuids st)),
     {| st_trace := st_trace st;
        st_searchClients := st_searchClients st;
        st_uuids := S (st_uuids st) |}).

Definition mapMetric (metric : option Metric) : string :=
  match metric with
  | Some euclidean => "euclidean"
  | Some dotproduct => "dotProduct"
  | Some cosine => "cosine"
  | None => "cosine"
  end.

(** The index object that [createIndex] builds. *)
Definition createIndex_index (indexName : string) (dimension : nat)
    (metric : Metric) : SearchIndex :=
  let vectorSearch :=
    {| vs_algorithms := Some
         [ {| alg_name := "hnsw-algorithm";
              alg_kind := "hnsw";
              alg_parameters := Some
                {| hnsw_metric := Some (mapMetric (Some metric));
                   hnsw_m := 4;
                   hnsw_efConstruction := 400;
                   hnsw_efSearch := 500 |} |} ];
       vs_profiles := Some
         [ {| profile_name := "vector-profile";
              profile_algorithmConfigurationName := "hnsw-algorithm" |} ] |} in
  let fields :=
    [ {| field_name := "id";
         field_type := "Edm.String";
         field_key := Some true;
         field_searchable := None;
         field_filterable := Some true;
         field_vectorSearchDimensions := None;
         field_vectorSearchProfileName := None |};
      {| field_name := "vector";
         field_type := "Collection(Edm.Single)";
         field_key := None;
         field_searchable := Some true;
         field_filterable := None;
         field_vectorSearchDimensions := Some (Some dimension);
         field_vectorSearchProfileName := Some "vector-profile" |};
      {| field_name := "metadata";
         field_type := "Edm.String";
         field_key := None;
         field_searchable := Some false;
         field_filterable := Some false;
         field_vectorSearchDimensions := None;
         field_vectorSearchProfileName := None |};
      {| field_name := "text";
         field_type := "Edm.String";
         field_key := None;
         field_searchable := Some true;
         field_filterable := Some false;
         field_vectorSearchDimensions := None;
         field_vectorSearchProfileName := None |} ] in
  {| index_name := indexName;
     index_fields := Some fields;
     index_vectorSearch := Some vectorSearch |}.

Definition createIndex (params : CreateIndexParams) : M number unit :=
  let indexName := ci_indexName params in
  let dimension := ci_dimension params in
  let metric := default cosine (ci_metric params) in
  await be (CreateOrUpdateIndex (createIndex_index indexName dimension metric)) ;;;
  searchClients_delete indexName.

Definition listIndexes : M number (list string) :=
  names <- await be ListIndexes ;;
  ret (fold_left (fun indexes name => indexes ++ [name]) names []).

(** The loop of [describeIndex] over the fields, which stops at the first
    field named [vector] that has a [vectorSearchDimensions] property;
    [dimension] stays [0] when there is none. *)
Fixpoint describeIndex_dimension (fields : list SearchField) : nat :=
  match fields with
  | [] => 0
  | field :: rest =>
      match field_vectorSearchDimensions field with
      | Some d =>
          if String.eqb (field_name field) "vector" then default 0 d
          else describeIndex_dimension rest
      | None => describeIndex_dimension rest
      end
  end.

(** [index.vectorSearch?.algorithms?.[0]] *)
Definition first_algorithm (index : SearchIndex) : option Algorithm :=
  match index_vectorSearch index with
  | Some vectorSearch =>
      match vs_algorithms vectorSearch with
      | Some algorithms => head algorithms
      | None => None
      end
  | None => None
  end.

Definition describeIndex_metric (index : SearchIndex) : Metric :=
  match first_algorithm index with
  | Some algorithm =>
      if String.eqb (alg_kind algorithm) "hnsw" then
        match alg_parameters algorithm with
        | Some parameters =>
            match hnsw_metric parameters with
            | Some algorithmMetric =>
                if String.eqb algorithmMetric "euclidean" then euclidean
                else if String.eqb algorithmMetric "dotProduct" then dotproduct
                else cosine
            | None => cosine
            end
        | None => cosine
        end
      else cosine
  | None => cosine
  end.

Definition describeIndex (indexName : string) : M number IndexStats :=
  index <- await be (GetIndex indexName) ;;
  searchClient <- getSearchClient indexName ;;
  countResult <- await be (GetDocumentsCount searchClient) ;;
  ret {| stats_dimension :=
           describeIndex_dimension (default [] (index_fields index));
         stats_count := countResult;
         stats_metric := describeIndex_metric index |}.

Definition deleteIndex (indexName : string) : M number unit :=
  await be (DeleteIndex indexName) ;;;
  searchClients_delete indexName.

Definition uploadDocuments (searchClient : string)
    (documents : list (Document number)) : M number unit :=
  await be (UploadDocuments searchClient documents).

Definition mergeDocuments (searchClient : string)
    (documents : list (MergeDocument number)) : M number unit :=
  await be (MergeDocuments searchClient documents).

Definition deleteDocuments (searchClient : string) (ids : list string)
  : M number unit :=
  await be (DeleteDocuments searchClient ids).

Definition search (searchClient : string) (searchText : string)
    (options : SearchOptions number) : M number (list (SearchHit number)) :=
  await be (Search searchClient searchText options).

(** *** [query] *)

(** [filter?.odata] when it is truthy, that is a non-empty string *)
Definition query_odataFilter (filter : option AzureSearchFilter)
  : option string :=
  match filter with
  | Some f =>
      match odata f with
      | Some s => if String.eqb s "" then None else Some s
      | None => None
      end
  | None => None
  end.

Definition query_options (params : QueryVectorParams number)
  : SearchOptions number :=
  let topK := default 10 (q_topK params) in
  let includeVector := default false (q_includeVector params) in
  {| so_queries :=
       [ {| vq_kind := "vector";
            vq_vector := q_queryVector params;
            vq_kNearestNeighborsCount := topK;
            vq_fields := ["vector"] |} ];
     so_filter := query_odataFilter (q_filter params);
     so_top := topK;
     so_select :=
       if includeVector then ["id"; "metadata"; "text"; "vector"]
       else ["id"; "metadata"; "text"] |}.

(** The [try] block of the result loop: [metadata] starts as [{}]; a truthy
    string in [doc.metadata] is parsed; a [SyntaxError] of [JSON.parse] is
    caught and leaves [metadata] as it was. *)
Definition query_metadata (doc : SearchHit number) : JSValue number :=
  if js_truthy rt (hit_metadata doc) && js_is_string (hit_metadata doc) then
    match hit_metadata doc with
    | JStr s =>
        match JSON_parse rt s with
        | Some parsed => parsed
        | None => JObj ∅
        end
    | _ => JObj ∅
    end
  else JObj ∅.

(** One pass of the result loop, up to the [push]. *)
Definition query_result (includeVector : bool) (result : SearchHit number)
  : Outcome (QueryResult number) :=
  let metadata := query_metadata result in
  match (if js_truthy rt (hit_text result)
         then js_set_prop metadata "text" (hit_text result)
         else Fulfilled metadata) with
  | Fulfilled metadata' =>
      Fulfilled {| qr_id := hit_id result;
                   qr_score := default (zero rt) (hit_score result);
                   qr_metadata := metadata';
                   qr_vector :=
                     if includeVector then hit_vector result else None |}
  | Rejected e => Rejected e
  end.

Fixpoint query_loop (includeVector : bool) (results : list (SearchHit number))
    (queryResults : list (QueryResult number))
  : Outcome (list (QueryResult number)) :=
  match results with
  | [] => Fulfilled queryResults
  | result :: rest =>
      match query_result includeVector result with
      | Fulfilled r => query_loop includeVector rest (queryResults ++ [r])
      | Rejected e => Rejected e
      end
  end.

Definition query (params : QueryVectorParams number)
  : M number (list (QueryResult number)) :=
  searchClient <- getSearchClient (q_indexName params) ;;
  results <- search searchClient "*" (query_options params) ;;
  lift (query_loop (default false (q_includeVector params)) results []).

(** *** [deleteVector] and [deleteVectors] *)

Definition batchSize : nat := 1000.

Definition deleteVector (params : DeleteVectorParams) : M number unit :=
  searchClient <- getSearchClient (dv_indexName params) ;;
  deleteDocuments searchClient [dv_id params].

(** The loop [for (let i = 0; i < ids.length; i += batchSize)] of
    [deleteVectors], entered at index [i]. *)
Equations? deleteVectors_loop (searchClient : string) (ids : list string)
    (i : nat) (st : AdapterState number)
  : Outcome unit * AdapterState number by wf (length ids - i) lt :=
  deleteVectors_loop searchClient ids i st with decide (i < length ids) => {
    | right _ := (Fulfilled tt, st);
    | left _
        with deleteDocuments searchClient (js_slice i (i + batchSize) ids) st => {
        | (Rejected e, st') := (Rejected e, st');
        | (Fulfilled _, st') :=
            deleteVectors_loop searchClient ids (i + batchSize) st' } }.
Proof. unfold batchSize. lia. Qed.

(** The query that resolves a filter to the records it matches. *)
Definition filter_query (indexName : string) (filter : AzureSearchFilter)
  : QueryVectorParams number :=
  {| q_indexName := indexName;
     q_queryVector := replicate 1536 (zero rt);
     q_topK := Some 10000;
     q_filter := Some filter;
     q_includeVector := None |}.

Definition deleteVectors_by_filter (searchClient indexName : string)
    (filter : option AzureSearchFilter) : M number unit :=
  match filter with
  | Some f =>
      results <- query (filter_query indexName f) ;;
      if decide (0 < length results)
      then deleteDocuments searchClient (map qr_id results)
      else ret tt
  | None => ret tt
  end.

Definition deleteVectors (params : DeleteVectorsParams) : M number unit :=
  let indexName := dvs_indexName params in
  searchClient <- getSearchClient indexName ;;
  match dvs_ids params with
  | Some ids =>
      if decide (0 < length ids)
      then deleteVectors_loop searchClient ids 0
      else deleteVectors_by_filter searchClient indexName (dvs_filter params)
  | None => deleteVectors_by_filter searchClient indexName (dvs_filter params)
  end.

(** *** [upsert] *)

(** [ids?.[i]] *)
Definition ids_at (ids : option (list string)) (i : nat) : option string :=
  match ids with
  | Some l => l !! i
  | None => None
  end.

(** [vectors.map((vector, i) => ...)], entered at index [i]: the callback
    runs on the vectors in order, and draws an identifier where [ids] has
    none at that index. *)
Fixpoint upsert_documents (ids : option (list string))
    (metadata : list (gmap string (JSValue number))) (i : nat)
    (vectors : list (list number)) : M number (list (Document number)) :=
  match vectors with
  | [] => ret []
  | vector :: rest =>
      id <- match ids_at ids i with
            | Some id => ret id
            | None => crypto_randomUUID
            end ;;
      let meta := default ∅ (metadata !! i) in
      let document :=
        {| doc_id := id;
           doc_vector := vector;
           doc_metadata := JSON_stringify rt (JObj meta);
           doc_text := js_coalesce (js_get meta "text") (JStr "") |} in
      documents <- upsert_documents ids metadata (S i) rest ;;
      ret (document :: documents)
  end.

(** The loop [for (let i = 0; i < documents.length; i += batchSize)] of
    [upsert], entered at index [i] with [uploadedIds] collected so far. *)
Equations? upsert_loop (searchClient : string)
    (documents : list (Document number)) (i : nat) (uploadedIds : list string)
    (st : AdapterState number)
  : Outcome (list string) * AdapterState number
  by wf (length documents - i) lt :=
  upsert_loop searchClient documents i uploadedIds st
    with decide (i < length documents) => {
    | right _ := (Fulfilled uploadedIds, st);
    | left _
        with uploadDocuments searchClient
               (js_slice i (i + batchSize) documents) st => {
        | (Rejected e, st') := (Rejected e, st');
        | (Fulfilled _, st') :=
            upsert_loop searchClient documents (i + batchSize)
              (uploadedIds
                 ++ map doc_id (js_slice i (i + batchSize) documents)) st' } }.
Proof. unfold batchSize. lia. Qed.

(** The [deleteFilter] step of [upsert]. *)
Definition upsert_deleteFilter (indexName : string)
    (deleteFilter : option (JSValue number)) : M number unit :=
  match deleteFilter with
  | Some f =>
      if js_truthy rt f then
        deleteVectors {| dvs_indexName := indexName;
                         dvs_ids := None;
                         dvs_filter := Some {| odata := Some (ToString rt f) |} |}
      else ret tt
  | None => ret tt
  end.

Definition upsert (params : UpsertVectorParams number)
  : M number (list string) :=
  let indexName := up_indexName params in
  let metadata := default [] (up_metadata params) in
  searchClient <- getSearchClient indexName ;;
  upsert_deleteFilter indexName (up_deleteFilter params) ;;;
  documents <- upsert_documents (up_ids params) metadata 0 (up_vectors params) ;;
  upsert_loop searchClient documents 0 [].

(** *** [updateVector] *)

(** The document of the by-id path. *)
Definition updateVector_document (id : string) (update : VectorUpdate number)
  : MergeDocument number :=
  {| merge_id := id;
     merge_vector := update_vector update;
     merge_metadata :=
       match update_metadata update with
       | Some metadata => Some (JSON_stringify rt (JObj metadata))
       | None => None
       end;
     merge_text :=
       match update_metadata update with
       | Some metadata =>
           if js_truthy rt (js_get metadata "text")
           then Some (js_get metadata "text")
           else None
       | None => None
       end |}.

(** The documents of the by-filter path, one per query result. *)
Definition updateVector_filter_document (update : VectorUpdate number)
    (r : QueryResult number) : MergeDocument number :=
  {| merge_id := qr_id r;
     merge_vector := update_vector update;
     merge_metadata :=
       match update_metadata update with
       | Some metadata => Some (JSON_stringify rt (JObj metadata))
       | None => None
       end;
     merge_text :=
       match update_metadata update with
       | Some metadata => Some (js_coalesce (js_get metadata "text") (JStr ""))
       | None => None
       end |}.

(** ["id" in params && params.id]: the property is there and is a non-empty
    string. *)
Definition truthy_id (id : option string) : option string :=
  match id with
  | Some s => if String.eqb s "" then None else Some s
  | None => None
  end.

Definition updateVector (params : UpdateVectorParams number) : M number unit :=
  let indexName := uv_indexName params in
  let update := uv_update params in
  match truthy_id (uv_id params) with
  | Some id =>
      searchClient <- getSearchClient indexName ;;
      mergeDocuments searchClient [updateVector_document id update]
  | None =>
      match uv_filter params with
      | Some filter =>
          results <- query (filter_query indexName filter) ;;
          searchClient <- getSearchClient indexName ;;
          let documents := map (updateVector_filter_document update) results in
          if decide (0 < length documents)
          then mergeDocuments searchClient documents
          else ret tt
      | None => ret tt
      end
  end.

End adapter.

(** ** [AzureDocumentProcessor.parseAnalyzeResult]

    Counts, indices and page numbers of the analysis service are natural
    numbers. *)

Section processor.
Context {number : Type}.

Record DocumentLine : Type := {
  line_content : string
}.

Record DocumentPage : Type := {
  page_pageNumber : nat;
  page_width : option number;
  page_height : option number;
  page_lines : option (list DocumentLine)
}.

Record BoundingRegion : Type := {
  region_pageNumber : nat
}.

Record DocumentTableCell : Type := {
  cell_rowIndex : nat;
  cell_columnIndex : nat;
  cell_content : option string
}.

Record DocumentTable : Type := {
  table_rowCount : nat;
  table_columnCount : nat;
  table_cells : option (list DocumentTableCell);
  table_boundingRegions : option (list BoundingRegion)
}.

Record AnalyzeResultOutput : Type := {
  result_content : option string;
  result_pages : option (list DocumentPage);
  result_tables : option (list DocumentTable)
}.

Record PageContent : Type := {
  pc_pageNumber : nat;
  pc_content : string;
  pc_width : option number;
  pc_height : option number
}.

(** A slot of a row array: [Some s] holds the string [s], [None] is an empty
    slot, which reads [undefined]. *)
Record TableContent : Type := {
  tc_rowCount : nat;
  tc_columnCount : nat;
  tc_cells : list (list (option string));
  tc_pageNumber : option nat
}.

Record DocumentMetadata : Type := {
  dm_pageCount : nat;
  dm_modelId : string;
  dm_processedAt : nat
}.

Record ProcessedDocument : Type := {
  pd_content : string;
  pd_pages : list PageContent;
  pd_tables : option (list TableContent);
  pd_metadata : DocumentMetadata
}.

Definition newline : string := String (Ascii.ascii_of_nat 10) EmptyString.

Definition parse_page (page : DocumentPage) : PageContent :=
  let pageContent :=
    match page_lines page with
    | Some lines => js_join newline (map line_content lines)
    | None => ""
    end in
  {| pc_pageNumber := page_pageNumber page;
     pc_content := pageContent;
     pc_width := page_width page;
     pc_height := page_height page |}.

(** The loop over [result.pages], with [pages] collected so far. *)
Fixpoint parse_pages (input : list DocumentPage) (pages : list PageContent)
  : list PageContent :=
  match input with
  | [] => pages
  | page :: rest => parse_pages rest (pages ++ [parse_page page])
  end.

(** The loop [for (let i = 0; i < table.rowCount; i++)], with [n] rounds
    left: each round pushes [new Array(columnCount).fill("")]. *)
Fixpoint init_cells (n columnCount : nat) (cells : list (list (option string)))
  : list (list (option string)) :=
  match n with
  | 0 => cells
  | S n' => init_cells n' columnCount (cells ++ [replicate columnCount (Some "")])
  end.

(** [cells[rowIndex][colIndex] = v]: with no row at [rowIndex],
    [cells[rowIndex]] is [undefined] and the assignment raises a
    [TypeError]; otherwise it is an array assignment on that row. *)
Definition write_cell (cells : list (list (option string)))
    (rowIndex colIndex : nat) (v : string)
  : Outcome (list (list (option string))) :=
  match cells !! rowIndex with
  | Some row => Fulfilled (<[rowIndex := js_array_set row colIndex v]> cells)
  | None => Rejected (TypeError "cannot set a property of undefined")
  end.

(** The loop over [table.cells]. *)
Fixpoint fill_cells (rowCount columnCount : nat)
    (reported : list DocumentTableCell) (cells : list (list (option string)))
  : Outcome (list (list (option string))) :=
  match reported with
  | [] => Fulfilled cells
  | cell :: rest =>
      let rowIndex := cell_rowIndex cell in
      let colIndex := cell_columnIndex cell in
      if decide (rowIndex < rowCount ∧ colIndex < columnCount) then
        match write_cell cells rowIndex colIndex
                (default "" (cell_content cell)) with
        | Fulfilled cells' => fill_cells rowCount columnCount rest cells'
        | Rejected e => Rejected e
        end
      else fill_cells rowCount columnCount rest cells
  end.

Definition parse_table (table : DocumentTable) : Outcome TableContent :=
  let cells := init_cells (table_rowCount table) (table_columnCount table) [] in
  match fill_cells (table_rowCount table) (table_columnCount table)
          (default [] (table_cells table)) cells with
  | Fulfilled cells' =>
      Fulfilled
        {| tc_rowCount := table_rowCount table;
           tc_columnCount := table_columnCount table;
           tc_cells := cells';
           tc_pageNumber :=
             match table_boundingRegions table with
             | Some (region :: _) => Some (region_pageNumber region)
             | _ => None
             end |}
  | Rejected e => Rejected e
  end.

(** The loop over [result.tables], with [tables] collected so far. *)
Fixpoint parse_tables (input : list DocumentTable) (tables : list TableContent)
  : Outcome (list TableContent) :=
  match input with
  | [] => Fulfilled tables
  | table :: rest =>
      match parse_table table with
      | Fulfilled t => parse_tables rest (tables ++ [t])
      | Rejected e => Rejected e
      end
  end.

(** [modelId] is [this.modelId]; [now] is the value of [new Date()]. *)
Definition parseAnalyzeResult (modelId : string) (now : nat)
    (result : AnalyzeResultOutput) : Outcome ProcessedDocument :=
  let pages := parse_pages (default [] (result_pages result)) [] in
  match parse_tables (default [] (result_tables result)) [] with
  | Fulfilled tables =>
      Fulfilled
        {| pd_content := default "" (result_content result);
           pd_pages := pages;
           pd_tables := if decide (0 < length tables) then Some tables else None;
           pd_metadata :=
             {| dm_pageCount :=
                  match result_pages result with
                  | Some ps => length ps
                  | None => 0
                  end;
                dm_modelId := modelId;
                dm_processedAt := now |} |}
  | Rejected e => Rejected e
  end.

End processor.

Arguments DocumentPage : clear implicits.
Arguments AnalyzeResultOutput : clear implicits.
Arguments PageContent : clear implicits.
Arguments ProcessedDocument : clear implicits.

(** ** The tools of the knowledge base

    [ingestDocumentTool] processes a document, cuts its content in chunks
    and embeds the chunks with libraries that are not of the repository; it
    then stores the chunks through the adapter.  What is modelled is that
    last part, steps 4 and 5 of [execute], and the part of
    [searchDocumentsTool] that follows the embedding of the query. *)

Section rag_tools.
Context {number : Type} (rt : JSRuntime number) (be : Backend number).

(** The JavaScript number of a natural number. *)
Variable number_of_nat : nat → number.

Local Open Scope adapter_scope.

(** [v?.k] for a [k] that is no built-in property: [undefined] on [null] and
    [undefined], the property of an object or of an array, and [undefined]
    on every primitive. *)
Definition js_optional_get (v : JSValue number) (k : string)
  : JSValue number :=
  match v with
  | JObj props => js_get props k
  | JArr _ named => js_get named k
  | _ => JUndefined
  end.

(** The callback of [chunks.map] in step 5:
    [{ text: chunk.text, source: documentUrl,
       pageNumber: processedDoc.pages[0]?.pageNumber ?? 1, chunkIndex: i,
       ...metadata }], in which the properties of [metadata] come last and
    so replace those of the same name. *)
Definition ingest_metadata (documentUrl : string)
    (metadata : option (gmap string (JSValue number)))
    (processedDoc : ProcessedDocument number) (i : nat) (chunk : string)
  : gmap string (JSValue number) :=
  let pageNumber :=
    match head (pd_pages processedDoc) with
    | Some page => pc_pageNumber page
    | None => 1
    end in
  default ∅ metadata
  ∪ <["text" := JStr chunk]>
      (<["source" := JStr documentUrl]>
         (<["pageNumber" := JNum (number_of_nat pageNumber)]>
            (<["chunkIndex" := JNum (number_of_nat i)]> ∅))).

Record IngestResult : Type := {
  ingest_success : bool;
  ingest_documentUrl : string;
  ingest_indexName : string;
  ingest_chunksIngested : nat;
  ingest_vectorIds : list string;
  ingest_pageCount : nat
}.

(** Steps 4 and 5 of [execute] of [ingestDocumentTool], on the processed
    document, the texts of the chunks and the embeddings that steps 1 to 3
    produced.  [embeddings[0].length] is evaluated before [createIndex] is
    called, and raises a [TypeError] without embeddings. *)
Definition ingestDocumentTool_store (documentUrl indexName : string)
    (metadata : option (gmap string (JSValue number)))
    (processedDoc : ProcessedDocument number) (chunks : list string)
    (embeddings : list (list number)) : M number IngestResult :=
  indexes <- listIndexes be ;;
  (if decide (indexName ∈ indexes) then ret tt
   else
     match embeddings with
     | first :: _ =>
         createIndex be {| ci_indexName := indexName;
                           ci_dimension := length first;
                           ci_metric := Some cosine |}
     | [] =>
         lift (Rejected (TypeError "cannot read properties of undefined"))
     end) ;;;
  let metadataArray :=
    imap (ingest_metadata documentUrl metadata processedDoc) chunks in
  ids <- upsert rt be {| up_indexName := indexName;
                         up_vectors := embeddings;
                         up_metadata := Some metadataArray;
                         up_ids := None;
                         up_deleteFilter := None |} ;;
  ret {| ingest_success := true;
         ingest_documentUrl := documentUrl;
         ingest_indexName := indexName;
         ingest_chunksIngested := length chunks;
         ingest_vectorIds := ids;
         ingest_pageCount := dm_pageCount (pd_metadata processedDoc) |}.

Record SearchToolResult : Type := {
  found_id : string;
  found_score : number;
  found_text : JSValue number;
  found_source : JSValue number;
  found_metadata : JSValue number
}.

(** [execute] of [searchDocumentsTool] after the embedding of the query:
    the call of [query] and the callback of [results.map]. *)
Definition searchDocumentsTool_results (indexName : string) (topK : nat)
    (embedding : list number) : M number (list SearchToolResult) :=
  results <- query rt be {| q_indexName := indexName;
                            q_queryVector := embedding;
                            q_topK := Some topK;
                            q_filter := None;
                            q_includeVector := None |} ;;
  ret (map (fun r =>
              {| found_id := qr_id r;
                 found_score := qr_score r;
                 found_text := js_optional_get (qr_metadata r) "text";
                 found_source := js_optional_get (qr_metadata r) "source";
                 found_metadata := qr_metadata r |})
         results).

End rag_tools.

Arguments IngestResult : clear implicits.
Arguments SearchToolResult : clear implicits.

(** ** A reference environment

    A concrete runtime and concrete search services, on which the model
    runs: integers for numbers, a small text format in the place of JSON,
    and a service that keeps the documents in memory. *)

Module Reference.

Definition number : Type := Z.

(** The first occurrence of [sep] splits a string in two. *)
Fixpoint split_at (sep : Ascii.ascii) (s : string) : option (string * string) :=
  match s with
  | EmptyString => None
  | String c s' =>
      if Ascii.eqb c sep then Some (EmptyString, s')
      else
        match split_at sep s' with
        | Some (a, b) => Some (String c a, b)
        | None => None
        end
  end.

(** The text format: an object whose properties are strings is written
    [{k:v;k:v;}]; other properties are left out, as [JSON.stringify] leaves
    out what it cannot write. *)
Definition stringify_entry (kv : string * JSValue number) : string :=
  match kv.2 with
  | JStr v => kv.1 +:+ ":" +:+ v +:+ ";"
  | _ => ""
  end.

Definition stringify (v : JSValue number) : string :=
  match v with
  | JObj props =>
      "{" +:+ fold_right String.append "}" (map stringify_entry (map_to_list props))
  | _ => "null"
  end.

Fixpoint parse_entries (fuel : nat) (s : string)
  : option (gmap string (JSValue number)) :=
  match fuel with
  | 0 => None
  | S fuel' =>
      if String.eqb s "}" then Some ∅
      else
        match split_at ":"%char s with
        | Some (k, rest) =>
            match split_at ";"%char rest with
            | Some (v, rest') =>
                match parse_entries fuel' rest' with
                | Some props => Some (<[k := JStr v]> props)
                | None => None
                end
            | None => None
            end
        | None => None
        end
  end.

Definition parse (s : string) : option (JSValue number) :=
  match s with
  | String c s' =>
      if Ascii.eqb c "{"%char then JObj <$> parse_entries (String.length s) s'
      else if String.eqb s "null" then Some JNull
      else None
  | EmptyString => None
  end.

Definition to_string (v : JSValue number) : string :=
  match v with
  | JStr s => s
  | JUndefined => "undefined"
  | JNull => "null"
  | JBool true => "true"
  | JBool false => "false"
  | JNum n => pretty n
  | JArr _ _ => ""
  | JObj _ => "[object Object]"
  end.

Definition uuid (n : nat) : string := "uuid-" +:+ pretty n.

Definition runtime : JSRuntime number :=
  {| zero := 0%Z;
     number_truthy := fun n => negb (Z.eqb n 0);
     JSON_stringify := stringify;
     JSON_parse := parse;
     ToString := to_string;
     randomUUID := uuid |}.

(** *** A search service in memory *)

Definition upload_one (docs : list (Document number)) (d : Document number)
  : list (Document number) :=
  if bool_decide (doc_id d ∈ map doc_id docs)
  then map (fun d' => if String.eqb (doc_id d') (doc_id d) then d else d') docs
  else docs ++ [d].

Definition merge_one (docs : list (Document number)) (m : MergeDocument number)
  : list (Document number) :=
  map (fun d =>
         if String.eqb (doc_id d) (merge_id m) then
           {| doc_id := doc_id d;
              doc_vector := default (doc_vector d) (merge_vector m);
              doc_metadata := default (doc_metadata d) (merge_metadata m);
              doc_text := default (doc_text d) (merge_text m) |}
         else d) docs.

(** The documents of index [indexName] after one more call. *)
Definition store_step (indexName : string) (docs : list (Document number))
    (c : Call number) : list (Document number) :=
  match c with
  | UploadDocuments i ds =>
      if String.eqb i indexName then fold_left upload_one ds docs else docs
  | MergeDocuments i ms =>
      if String.eqb i indexName then fold_left merge_one ms docs else docs
  | DeleteDocuments i ids =>
      if String.eqb i indexName
      then filter (fun d => doc_id d ∉ ids) docs
      else docs
  | DeleteIndex i => if String.eqb i indexName then [] else docs
  | _ => docs
  end.

Definition stored (history : list (Call number)) (indexName : string)
  : list (Document number) :=
  fold_left (store_step indexName) history [].

(** The schema of index [indexName] after the calls of [history]. *)
Definition schema_step (indexName : string) (schema : option SearchIndex)
    (c : Call number) : option SearchIndex :=
  match c with
  | CreateOrUpdateIndex index =>
      if String.eqb (index_name index) indexName then Some index else schema
  | DeleteIndex i => if String.eqb i indexName then None else schema
  | _ => schema
  end.

Definition schema (history : list (Call number)) (indexName : string)
  : option SearchIndex :=
  fold_left (schema_step indexName) history None.

Definition hit_of (d : Document number) : SearchHit number :=
  {| hit_score := Some 1%Z;
     hit_id := doc_id d;
     hit_metadata := JStr (doc_metadata d);
     hit_text := doc_text d;
     hit_vector := Some (doc_vector d) |}.

(** The service accepts every call.  It treats a filter as satisfied by
    every document, and answers a search with the first [top] documents of
    the index. *)
Definition memory : Backend number :=
  fun history c =>
    match c return string + reply c with
    | CreateOrUpdateIndex _ => inr tt
    | ListIndexes => inr []
    | GetIndex indexName =>
        match schema history indexName with
        | Some index => inr index
        | None => inl "index not found"
        end
    | DeleteIndex _ => inr tt
    | GetDocumentsCount indexName => inr (length (stored history indexName))
    | UploadDocuments _ _ => inr tt
    | MergeDocuments _ _ => inr tt
    | DeleteDocuments _ _ => inr tt
    | Search indexName _ options =>
        inr (map hit_of (take (so_top options) (stored history indexName)))
    end.

Definition is_upload (c : Call number) : bool :=
  match c with
  | UploadDocuments _ _ => true
  | _ => false
  end.

(** The service in memory, except that it answers the upload number [k]
    (counted from [0]) with the error [e]. *)
Definition failing_upload (k : nat) (e : string) : Backend number :=
  fun history c =>
    match c return string + reply c with
    | UploadDocuments _ _ =>
        if Nat.eqb (length (filter (fun c' => is_upload c' = true) history)) k
        then inl e
        else inr tt
    | c' => memory history c'
    end.

(** The service in memory, except that every search has the given
    results. *)
Definition answering (hits : list (SearchHit number)) : Backend number :=
  fun history c =>
    match c return string + reply c with
    | Search _ _ _ => inr hits
    | c' => memory history c'
    end.

Definition initial : AdapterState number :=
  {| st_trace := []; st_searchClients := ∅; st_uuids := 0 |}.

End Reference.

(** ** Vocabulary of the statements *)

Section vocabulary.
Context {number : Type} (rt : JSRuntime number) (be : Backend number).



(** The search that resolves a filter to the records it matches: the
    filter as [query] passes every filter on, a vector of 1536 zeros, and
    10000 for both the number of neighbours and the number of results. *)
Definition resolution_search (indexName : string) (filter : AzureSearchFilter)
  : Call number :=
  Search indexName "*"
    {| so_queries :=
         [ {| vq_kind := "vector";
              vq_vector := replicate 1536 (zero rt);
              vq_kNearestNeighborsCount := 10000;
              vq_fields := ["vector"] |} ];
       so_filter := query_odataFilter (Some filter);
       so_top := 10000;
       so_select := ["id"; "metadata"; "text"] |}.


(** [updateVector] takes its by-filter path. *)
Definition update_by_filter (params : UpdateVectorParams number)
    (filter : AzureSearchFilter) : Prop :=
  truthy_id (uv_id params) = None ∧ uv_filter params = Some filter.

(** [deleteVectors] takes its by-filter path. *)
Definition delete_by_filter (params : DeleteVectorsParams)
    (filter : AzureSearchFilter) : Prop :=
  (dvs_ids params = None ∨ dvs_ids params = Some [])
  ∧ dvs_filter params = Some filter.

(** A merged document carries the fields of [update], as the by-filter path
    of [updateVector] writes them. *)
Definition carries_update (update : VectorUpdate number)
    (d : MergeDocument number) : Prop :=
  merge_vector d = update_vector update
  ∧ merge_metadata d
    = (fun metadata => JSON_stringify rt (JObj metadata)) <$> update_metadata update
  ∧ merge_text d
    = (fun metadata => js_coalesce (js_get metadata "text") (JStr ""))
        <$> update_metadata update.

(** The service accepts the uploads of [batches] to [indexName], one after
    the other, after the calls of [history]. *)
Fixpoint accepted (history : list (Call number)) (indexName : string)
    (batches : list (list (Document number))) : Prop :=
  match batches with
  | [] => True
  | batch :: rest =>
      be history (UploadDocuments indexName batch) = inr tt
      ∧ accepted (history ++ [UploadDocuments indexName batch]) indexName rest
  end.

(** Batches as the upload loop cuts them: every batch but the last has
    [batchSize] elements, and the last has between one and [batchSize]. *)
Fixpoint batched {A : Type} (batches : list (list A)) : Prop :=
  match batches with
  | [] => True
  | [batch] => 0 < length batch ≤ batchSize
  | batch :: rest => length batch = batchSize ∧ batched rest
  end.

(** The first steps of [upsert], up to the upload loop: the client of the
    index and the [deleteFilter] step. *)
Definition upsert_prelude (params : UpsertVectorParams number)
  : M number unit :=
  bind (getSearchClient (up_indexName params))
    (fun _ => upsert_deleteFilter rt be (up_indexName params)
                (up_deleteFilter params)).

End vocabulary.

Section processor_vocabulary.
Context {number : Type}.

(** The content of the last cell reported at row [r] and column [c], and
    [current] when no cell is reported there. *)
Fixpoint last_reported (r c : nat) (reported : list DocumentTableCell)
    (current : string) : string :=
  match reported with
  | [] => current
  | cell :: rest =>
      last_reported r c rest
        (if decide (r = cell_rowIndex cell ∧ c = cell_columnIndex cell)
         then default "" (cell_content cell)
         else current)
  end.

(** The grid with [rowCount] rows of [columnCount] strings that holds
    [f r c] at row [r] and column [c]. *)
Definition tabulate (rowCount columnCount : nat) (f : nat → nat → string)
  : list (list string) :=
  (fun r => (fun c => f r c) <$> seq 0 columnCount) <$> seq 0 rowCount.

(** [tc] is what the parser should make of [table]: the declared counts, and
    cells that are a full grid of strings, with no empty slot, in which
    every position holds the last content reported for it, or the empty
    string. *)
Definition grid_of (table : DocumentTable) (tc : TableContent) : Prop :=
  tc_rowCount tc = table_rowCount table
  ∧ tc_columnCount tc = table_columnCount table
  ∧ ∃ grid : list (list string),
      tc_cells tc = map (map Some) grid
      ∧ length grid = table_rowCount table
      ∧ Forall (fun row => length row = table_columnCount table) grid
      ∧ ∀ r c, r < table_rowCount table → c < table_columnCount table →
          ∃ row, grid !! r = Some row
                 ∧ row !! c
                   = Some (last_reported r c (default [] (table_cells table)) "").

(** Page numbers start at one and never decrease along the sequence. *)
Definition page_numbers_ordered (numbers : list nat) : Prop :=
  Forall (fun n => 1 ≤ n) numbers
  ∧ ∀ i a b, numbers !! i = Some a → numbers !! S i = Some b → a ≤ b.

End processor_vocabulary.

(** ** Vocabulary of the further statements *)

Section further_vocabulary.
Context {number : Type} (rt : JSRuntime number) (be : Backend number).

(** The service accepts the deletions of [batches] from [indexName], one
    after the other, after the calls of [history]. *)
Fixpoint accepted_deletions (history : list (Call number)) (indexName : string)
    (batches : list (list string)) : Prop :=
  match batches with
  | [] => True
  | batch :: rest =>
      be history (DeleteDocuments indexName batch) = inr tt
      ∧ accepted_deletions (history ++ [DeleteDocuments indexName batch])
          indexName rest
  end.


(** The cached clients of the indexes other than [indexName] are the same
    in [st] and [st']. *)
Definition other_clients_kept (indexName : string)
    (st st' : AdapterState number) : Prop :=
  ∀ other, other ≠ indexName →
    (other ∈ st_searchClients st' ↔ other ∈ st_searchClients st).

(** A document as [upsert] stores it for one of [vectors]: metadata that is
    the serialization of an object, and a text that is the [text] of that
    object or the empty string, never [null] or [undefined]. *)
Definition stored_form (vectors : list (list number)) (d : Document number)
  : Prop :=
  doc_vector d ∈ vectors
  ∧ js_nullish (doc_text d) = false
  ∧ ∃ meta, doc_metadata d = JSON_stringify rt (JObj meta)
            ∧ doc_text d = js_coalesce (js_get meta "text") (JStr "").



(** The cache of clients only grows from [st] to [st']. *)
Definition clients_grow (st st' : AdapterState number) : Prop :=
  st_searchClients st ⊆ st_searchClients st'.

(** The computation [c] relates every state to the state it leaves. *)
Definition keeps {A : Type}
    (R : AdapterState number → AdapterState number → Prop) (c : M number A)
  : Prop :=
  ∀ st, R st (c st).2.

(** A relation between states that looks at the cache of clients only, and
    that taking the client of [indexName] keeps. *)
Definition cache_relation
    (R : AdapterState number → AdapterState number → Prop)
    (indexName : string) : Prop :=
  (∀ st, R st st)
  ∧ (∀ st1 st2 st3, R st1 st2 → R st2 st3 → R st1 st3)
  ∧ (∀ st st', st_searchClients st' = st_searchClients st → R st st')
  ∧ keeps R (getSearchClient indexName).

End further_vocabulary.

(** ** Scenarios

    Concrete calls and raw results, on the reference environment. *)

Module Scenario.
Import Reference.

Definition index_params : CreateIndexParams :=
  {| ci_indexName := "documents";
     ci_dimension := 3072;
     ci_metric := Some dotproduct |}.

Definition meta0 : gmap string (JSValue number) :=
  {["text" := JStr "hello"; "source" := JStr "a.pdf"]}.

(** Two records without explicit ids; the first has metadata. *)
Definition two_records : UpsertVectorParams number :=
  {| up_indexName := "documents";
     up_vectors := [[1%Z; 2%Z]; [3%Z; 4%Z]];
     up_metadata := Some [meta0];
     up_ids := None;
     up_deleteFilter := None |}.

(** 1001 records: one full batch and a batch of one. *)
Definition many_records : UpsertVectorParams number :=
  {| up_indexName := "documents";
     up_vectors := replicate 1001 [0%Z];
     up_metadata := None;
     up_ids := None;
     up_deleteFilter := None |}.

(** The state of [upsert many_records] when the upload loop starts. *)
Definition many_ready : AdapterState number :=
  {| st_trace := []; st_searchClients := {["documents"]}; st_uuids := 1001 |}.

Definition many_documents : list (Document number) :=
  map (fun k => {| doc_id := uuid k;
                   doc_vector := [0%Z];
                   doc_metadata := stringify (JObj ∅);
                   doc_text := JStr "" |}) (seq 0 1001).

Definition a_query : QueryVectorParams number :=
  {| q_indexName := "documents";
     q_queryVector := [1%Z; 2%Z];
     q_topK := None;
     q_filter := None;
     q_includeVector := None |}.

Definition malformed_hit : SearchHit number :=
  {| hit_score := Some 2%Z;
     hit_id := "a";
     hit_metadata := JStr "{oops";
     hit_text := JStr "some text";
     hit_vector := None |}.

Definition good_hit : SearchHit number :=
  {| hit_score := Some 1%Z;
     hit_id := "b";
     hit_metadata := JStr "{source:a.pdf;}";
     hit_text := JStr "hello";
     hit_vector := None |}.

Definition a_filter : AzureSearchFilter :=
  {| odata := Some "source eq 'a.pdf'" |}.

Definition an_update : VectorUpdate number :=
  {| update_vector := None;
     update_metadata := Some {["text" := JStr "bye"]} |}.

Definition update_with (id : option string)
    (filter : option AzureSearchFilter) : UpdateVectorParams number :=
  {| uv_indexName := "documents";
     uv_id := id;
     uv_filter := filter;
     uv_update := an_update |}.

Definition delete_with (ids : option (list string))
    (filter : option AzureSearchFilter) : DeleteVectorsParams :=
  {| dvs_indexName := "documents";
     dvs_ids := ids;
     dvs_filter := filter |}.

(** The state after [two_records] went to the service in memory. *)
Definition after_two_records : AdapterState number :=
  (upsert runtime memory two_records initial).2.



Definition a_query_search : Call number :=
  Search "documents" "*" (query_options a_query).



Definition page (n : nat) : DocumentPage number :=
  {| page_pageNumber := n;
     page_width := None;
     page_height := None;
     page_lines := Some [ {| line_content := "a line" |} ] |}.

Definition pages_2_1 : AnalyzeResultOutput number :=
  {| result_content := Some "text";
     result_pages := Some [page 2; page 1];
     result_tables := None |}.

Definition pages_1_2 : AnalyzeResultOutput number :=
  {| result_content := Some "text";
     result_pages := Some [page 1; page 2];
     result_tables := None |}.

(** A table of two rows and two columns, with one cell reported inside the
    bounds and one below the last row. *)
Definition table_2_2 : DocumentTable :=
  {| table_rowCount := 2;
     table_columnCount := 2;
     table_cells :=
       Some [ {| cell_rowIndex := 0; cell_columnIndex := 0;
                 cell_content := Some "A" |};
              {| cell_rowIndex := 2; cell_columnIndex := 1;
                 cell_content := Some "B" |} ];
     table_boundingRegions := Some [ {| region_pageNumber := 1 |} ] |}.

End Scenario.

(** ** Further scenarios *)

Module FurtherScenario.
Import Reference Scenario.

(** The state in which [upsert] on the index [documents] starts its
    uploads, from [initial]. *)
Definition ready : AdapterState number :=
  {| st_trace := []; st_searchClients := {["documents"]}; st_uuids := 0 |}.

(** Two records of which the first has an explicit id. *)
Definition partly_named : UpsertVectorParams number :=
  {| up_indexName := "documents";
     up_vectors := [[1%Z; 2%Z]; [3%Z; 4%Z]];
     up_metadata := None;
     up_ids := Some ["first"];
     up_deleteFilter := None |}.


Definition source_a : gmap string (JSValue number) :=
  <["source" := JStr "a.pdf"]> ∅.

Definition good_results : list (QueryResult number) :=
  Eval vm_compute in
    match query_loop runtime false [good_hit] [] with
    | Fulfilled results => results
    | Rejected _ => []
    end.

(** The state after [createIndex index_params] went to the service in
    memory. *)
Definition after_createIndex : AdapterState number :=
  (createIndex memory index_params initial).2.

Definition cell (r c : nat) (content : string) : DocumentTableCell :=
  {| cell_rowIndex := r; cell_columnIndex := c; cell_content := Some content |}.

Definition table_diagonal : DocumentTable :=
  {| table_rowCount := 2;
     table_columnCount := 2;
     table_cells := Some [cell 0 0 "A"; cell 1 1 "D"];
     table_boundingRegions := None |}.

Definition processed : ProcessedDocument number :=
  {| pd_content := "one two";
     pd_pages := [ {| pc_pageNumber := 3;
                      pc_content := "one two";
                      pc_width := None;
                      pc_height := None |} ];
     pd_tables := None;
     pd_metadata := {| dm_pageCount := 1;
                       dm_modelId := "prebuilt-layout";
                       dm_processedAt := 0 |} |}.

(** The caller of [ingestDocumentTool] gives a property [text]. *)
Definition a_title : gmap string (JSValue number) :=
  <["text" := JStr "a title"]> ∅.

End FurtherScenario.

(* ===================================================================== *)
(** * Part II.  Properties                                               *)
(* ===================================================================== *)

(** The primitives of the monad and of the clients unfold on demand. *)
Create HintDb adapter.
#[global] Hint Unfold bind ret lift await answer getSearchClient
  searchClients_delete crypto_randomUUID uploadDocuments mergeDocuments
  deleteDocuments search : adapter.

(** ** Index lifecycle *)

Section index_properties.
Context {number : Type} (rt : JSRuntime number) (be : Backend number).

(** [createIndex] makes one call to the service, whatever the answer. *)
Lemma createIndex_trace (params : CreateIndexParams) (st : AdapterState number) :
  st_trace (createIndex be params st).2
  = st_trace st
      ++ [CreateOrUpdateIndex
            (createIndex_index (ci_indexName params) (ci_dimension params)
               (default cosine (ci_metric params)))].
Proof.
  unfold createIndex. autounfold with adapter; simpl.
  destruct (be (st_trace st) _); reflexivity.
Qed.

Lemma describeIndex_dimension_createIndex (name : string) (d : nat) (m : Metric) :
  describeIndex_dimension (default [] (index_fields (createIndex_index name d m)))
  = d.
Proof. reflexivity. Qed.

Lemma describeIndex_metric_createIndex (name : string) (d : nat) (m : Metric) :
  describeIndex_metric (createIndex_index name d m) = m.
Proof. destruct m; reflexivity. Qed.

(** What [describeIndex] returns when the service answers both calls. *)
Lemma describeIndex_fulfilled (indexName : string) (st : AdapterState number)
    (index : SearchIndex) (n : nat) :
  be (st_trace st) (GetIndex indexName) = inr index →
  be (st_trace st ++ [GetIndex indexName]) (GetDocumentsCount indexName) = inr n →
  (describeIndex be indexName st).1
  = Fulfilled {| stats_dimension :=
                   describeIndex_dimension (default [] (index_fields index));
                 stats_count := n;
                 stats_metric := describeIndex_metric index |}.
Proof.
  intros Hindex Hcount.
  unfold describeIndex. autounfold with adapter; simpl.
  rewrite Hindex; simpl. rewrite Hcount. reflexivity.
Qed.

(** C9.  Let [createIndex] be called with a name, a dimension and a metric
    (cosine when none is given), and let [index] be the schema it sends to
    the service.  Whenever the service later returns that schema for the
    name (and a document count), [describeIndex] returns the dimension and
    the metric that [createIndex] was given: reading the dimension off the
    field named [vector] and the metric off the first algorithm undoes the
    translation of [createIndex]. *)
Theorem createIndex_describeIndex_roundtrip
    (params : CreateIndexParams) (st st' : AdapterState number)
    (index : SearchIndex) (n : nat) :
  let indexName := ci_indexName params in
  last (st_trace (createIndex be params st).2) = Some (CreateOrUpdateIndex index) →
  be (st_trace st') (GetIndex indexName) = inr index →
  be (st_trace st' ++ [GetIndex indexName]) (GetDocumentsCount indexName) = inr n →
  (describeIndex be indexName st').1
  = Fulfilled {| stats_dimension := ci_dimension params;
                 stats_count := n;
                 stats_metric := default cosine (ci_metric params) |}.
Proof.
  intros indexName Hsent Hindex Hcount.
  rewrite createIndex_trace, last_snoc in Hsent.
  injection Hsent as <-.
  rewrite (describeIndex_fulfilled _ _ _ _ Hindex Hcount).
  rewrite describeIndex_dimension_createIndex, describeIndex_metric_createIndex.
  reflexivity.
Qed.

End index_properties.

(** ** [query] and the mutations by filter *)

Section query_properties.
Context {number : Type} (rt : JSRuntime number) (be : Backend number).


Lemma query_loop_acc (iv : bool) (l : list (SearchHit number))
    (acc : list (QueryResult number)) :
  query_loop rt iv l acc
  = match query_loop rt iv l [] with
    | Fulfilled r => Fulfilled (acc ++ r)
    | Rejected e => Rejected e
    end.
Proof.
  revert acc. induction l as [|h l IH]; intros acc; simpl.
  - by rewrite app_nil_r.
  - destruct (query_result rt iv h) as [r|e]; [|reflexivity].
    rewrite (IH (acc ++ [r])), (IH [r]).
    destruct (query_loop rt iv l []); [|reflexivity].
    by rewrite <- app_assoc.
Qed.


(** [query] makes one call to the service, a search, and then runs the
    result loop on what the service returned. *)
Lemma query_run (params : QueryVectorParams number) (st : AdapterState number) :
  query rt be params st
  = (match be (st_trace st)
             (Search (q_indexName params) "*" (query_options params)) with
     | inl e => Rejected (BackendFailure e)
     | inr results =>
         query_loop rt (default false (q_includeVector params)) results []
     end,
     {| st_trace :=
          st_trace st ++ [Search (q_indexName params) "*" (query_options params)];
        st_searchClients :=
          if decide (q_indexName params ∈ st_searchClients st)
          then st_searchClients st
          else {[q_indexName params]} ∪ st_searchClients st;
        st_uuids := st_uuids st |}).
Proof.
  unfold query. autounfold with adapter; simpl.
  destruct (be (st_trace st) _); reflexivity.
Qed.




End query_properties.

Section filter_properties.
Context {number : Type} (rt : JSRuntime number) (be : Backend number).

Lemma filter_query_search (indexName : string) (filter : AzureSearchFilter) :
  Search indexName "*" (query_options (filter_query rt indexName filter))
  = resolution_search rt indexName filter.
Proof. reflexivity. Qed.

(** The by-filter path of [updateVector], step by step. *)
Lemma updateVector_by_filter_run (params : UpdateVectorParams number)
    (filter : AzureSearchFilter) (st : AdapterState number) :
  update_by_filter params filter →
  let indexName := uv_indexName params in
  let c := resolution_search rt indexName filter in
  let r := updateVector rt be params st in
  match be (st_trace st) c with
  | inl e => r.1 = Rejected (BackendFailure e) ∧ st_trace r.2 = st_trace st ++ [c]
  | inr hits =>
      match query_loop rt false hits [] with
      | Rejected e => r.1 = Rejected e ∧ st_trace r.2 = st_trace st ++ [c]
      | Fulfilled results =>
          let documents :=
            map (updateVector_filter_document rt (uv_update params)) results in
          if decide (0 < length results) then
            r.1 = answer be (st_trace st ++ [c]) (MergeDocuments indexName documents)
            ∧ st_trace r.2
              = st_trace st ++ [c; MergeDocuments indexName documents]
          else r.1 = Fulfilled tt ∧ st_trace r.2 = st_trace st ++ [c]
      end
  end.
Proof.
  intros [Hid Hfilter] indexName c r. subst r c.
  unfold updateVector. rewrite Hid, Hfilter.
  unfold bind. rewrite !query_run.
  change (Search _ "*" _) with (resolution_search rt indexName filter). simpl.
  destruct (be (st_trace st) (resolution_search rt indexName filter))
    as [e|hits]; simpl; [done|].
  destruct (query_loop rt false hits []) as [results|e]; simpl; [|done].
  rewrite length_map.
  destruct (decide (0 < length results)); simpl; [|done].
  split; [reflexivity|]. by rewrite <- app_assoc.
Qed.

(** The by-filter path of [deleteVectors], step by step. *)
Lemma deleteVectors_by_filter_run (params : DeleteVectorsParams)
    (filter : AzureSearchFilter) (st : AdapterState number) :
  delete_by_filter params filter →
  let indexName := dvs_indexName params in
  let c := resolution_search rt indexName filter in
  let r := deleteVectors rt be params st in
  match be (st_trace st) c with
  | inl e => r.1 = Rejected (BackendFailure e) ∧ st_trace r.2 = st_trace st ++ [c]
  | inr hits =>
      match query_loop rt false hits [] with
      | Rejected e => r.1 = Rejected e ∧ st_trace r.2 = st_trace st ++ [c]
      | Fulfilled results =>
          let ids := map qr_id results in
          if decide (0 < length results) then
            r.1 = answer be (st_trace st ++ [c]) (DeleteDocuments indexName ids)
            ∧ st_trace r.2 = st_trace st ++ [c; DeleteDocuments indexName ids]
          else r.1 = Fulfilled tt ∧ st_trace r.2 = st_trace st ++ [c]
      end
  end.
Proof.
  intros [Hids Hfilter] indexName c r. subst r c.
  assert (deleteVectors rt be params st
          = bind (getSearchClient indexName)
              (fun searchClient =>
                 deleteVectors_by_filter rt be searchClient indexName
                   (Some filter)) st) as ->.
  { unfold deleteVectors. fold indexName. rewrite Hfilter.
    destruct Hids as [-> | ->]; reflexivity. }
  unfold deleteVectors_by_filter, bind, getSearchClient.
  rewrite !query_run.
  change (Search _ "*" _) with (resolution_search rt indexName filter). simpl.
  destruct (be (st_trace st) (resolution_search rt indexName filter))
    as [e|hits]; simpl; [split; reflexivity|].
  destruct (query_loop rt false hits []) as [results|e]; simpl; [|done].
  destruct (decide (0 < length results)); simpl; [|done].
  split; [reflexivity|]. by rewrite <- app_assoc.
Qed.

Lemma updateVector_filter_document_carries (update : VectorUpdate number)
    (results : list (QueryResult number)) :
  Forall (carries_update rt update)
    (map (updateVector_filter_document rt update) results).
Proof.
  apply Forall_forall. intros d Hd.
  apply list_elem_of_fmap in Hd as (r & -> & _).
  unfold carries_update, updateVector_filter_document; simpl.
  destruct (update_metadata update); done.
Qed.



(** The cases of a by-filter run, as the two lemmas above list them; in
    each of them the trace starts with the resolution search. *)
Ltac first_call_of Hrun :=
  cbv zeta in Hrun;
  match type of Hrun with
  | match ?answer with _ => _ end =>
      destruct answer as [?|?hits]; [exists []; apply Hrun|]
  end;
  match type of Hrun with
  | match ?loop with _ => _ end =>
      destruct loop as [?results|?]; [|exists []; apply Hrun]
  end;
  match type of Hrun with
  | context [decide ?P] =>
      destruct (decide P); [eexists [_] | exists []]; apply Hrun
  end.

(** The by-filter paths start with the resolution search. *)
Lemma updateVector_by_filter_first_call (params : UpdateVectorParams number)
    (filter : AzureSearchFilter) (st : AdapterState number) :
  update_by_filter params filter →
  ∃ rest,
    st_trace (updateVector rt be params st).2
    = st_trace st ++ resolution_search rt (uv_indexName params) filter :: rest.
Proof.
  intros Hu.
  pose proof (updateVector_by_filter_run params filter st Hu) as Hrun.
  first_call_of Hrun.
Qed.

Lemma deleteVectors_by_filter_first_call (params : DeleteVectorsParams)
    (filter : AzureSearchFilter) (st : AdapterState number) :
  delete_by_filter params filter →
  ∃ rest,
    st_trace (deleteVectors rt be params st).2
    = st_trace st ++ resolution_search rt (dvs_indexName params) filter :: rest.
Proof.
  intros Hd.
  pose proof (deleteVectors_by_filter_run params filter st Hd) as Hrun.
  first_call_of Hrun.
Qed.

(** C10.  In every by-filter [updateVector] and [deleteVectors] call, the
    search that resolves the filter carries one vector query, whose vector
    is 1536 zeros, whatever the service holds.  Its length is therefore the
    dimension [d] declared for the target index only when [d] is 1536. *)
Theorem filter_resolution_vector_is_1536_zeros
    (uparams : UpdateVectorParams number) (dparams : DeleteVectorsParams)
    (filter : AzureSearchFilter) (st : AdapterState number) (d : nat) :
  (update_by_filter uparams filter →
   ∃ options q rest,
     st_trace (updateVector rt be uparams st).2
     = st_trace st ++ Search (uv_indexName uparams) "*" options :: rest
     ∧ so_queries options = [q]
     ∧ vq_vector q = replicate 1536 (zero rt)
     ∧ (length (vq_vector q) = d ↔ d = 1536))
  ∧ (delete_by_filter dparams filter →
     ∃ options q rest,
       st_trace (deleteVectors rt be dparams st).2
       = st_trace st ++ Search (dvs_indexName dparams) "*" options :: rest
       ∧ so_queries options = [q]
       ∧ vq_vector q = replicate 1536 (zero rt)
       ∧ (length (vq_vector q) = d ↔ d = 1536)).
Proof.
  split.
  - intros Hu.
    destruct (updateVector_by_filter_first_call uparams filter st Hu)
      as [rest Hrest].
    eexists _, _, rest. split; [exact Hrest|].
    split; [reflexivity|]. split; [reflexivity|].
    change (length (replicate 1536 (zero rt)) = d ↔ d = 1536).
    rewrite length_replicate. split; congruence.
  - intros Hd.
    destruct (deleteVectors_by_filter_first_call dparams filter st Hd)
      as [rest Hrest].
    eexists _, _, rest. split; [exact Hrest|].
    split; [reflexivity|]. split; [reflexivity|].
    change (length (replicate 1536 (zero rt)) = d ↔ d = 1536).
    rewrite length_replicate. split; congruence.
Qed.

End filter_properties.

(** ** Dispatch on id and filter *)

Section dispatch_properties.
Context {number : Type} (rt : JSRuntime number) (be : Backend number).

(** C6, as the code has it.  [updateVector] and [deleteVectors] raise no
    error for their arguments.  With neither an id (or ids) nor a filter,
    they succeed and send nothing to the service.  With both, they take the
    id path and ignore the filter: the call does what the same call without
    the filter does, and [updateVector] sends the one merge of the document
    with that id. *)
Theorem update_delete_dispatch
    (uparams : UpdateVectorParams number) (dparams : DeleteVectorsParams)
    (st : AdapterState number) :
  (truthy_id (uv_id uparams) = None → uv_filter uparams = None →
   updateVector rt be uparams st = (Fulfilled tt, st))
  ∧ ((dvs_ids dparams = None ∨ dvs_ids dparams = Some []) →
     dvs_filter dparams = None →
     (deleteVectors rt be dparams st).1 = Fulfilled tt
     ∧ st_trace (deleteVectors rt be dparams st).2 = st_trace st)
  ∧ (∀ id filter,
       truthy_id (uv_id uparams) = Some id → uv_filter uparams = Some filter →
       updateVector rt be uparams st
       = updateVector rt be {| uv_indexName := uv_indexName uparams;
                               uv_id := uv_id uparams;
                               uv_filter := None;
                               uv_update := uv_update uparams |} st
       ∧ st_trace (updateVector rt be uparams st).2
         = st_trace st
             ++ [MergeDocuments (uv_indexName uparams)
                   [updateVector_document rt id (uv_update uparams)]])
  ∧ (∀ ids filter,
       dvs_ids dparams = Some ids → 0 < length ids →
       dvs_filter dparams = Some filter →
       deleteVectors rt be dparams st
       = deleteVectors rt be {| dvs_indexName := dvs_indexName dparams;
                                dvs_ids := dvs_ids dparams;
                                dvs_filter := None |} st).
Proof.
  split; [|split; [|split]].
  - intros Hid Hfilter. unfold updateVector. by rewrite Hid, Hfilter.
  - intros Hids Hfilter. unfold deleteVectors. rewrite Hfilter.
    by destruct Hids as [-> | ->].
  - intros id filter Hid Hfilter. unfold updateVector; simpl.
    rewrite Hid. split; [reflexivity|].
    unfold bind, getSearchClient, mergeDocuments, await; reflexivity.
  - intros ids filter Hids Hlen Hfilter. unfold deleteVectors; simpl.
    rewrite Hids. by destruct (decide (0 < length ids)).
Qed.

End dispatch_properties.

(** ** [upsert] *)

Section upsert_properties.
Context {number : Type} (rt : JSRuntime number) (be : Backend number).

Lemma batchSize_pos : 0 < batchSize.
Proof. unfold batchSize. lia. Qed.

Lemma js_slice_batch {A : Type} (i : nat) (l : list A) :
  js_slice i (i + batchSize) l = take batchSize (drop i l).
Proof. unfold js_slice. f_equal. lia. Qed.

Lemma batch_split {A : Type} (i : nat) (l : list A) :
  drop i l = take batchSize (drop i l) ++ drop (i + batchSize) l.
Proof. by rewrite <- drop_drop, take_drop. Qed.

Lemma batch_length {A : Type} (i : nat) (l : list A) :
  length (take batchSize (drop i l)) = batchSize `min` (length l - i).
Proof. by rewrite length_take, length_drop. Qed.

Local Opaque batchSize.

Lemma upsert_loop_step (c : string) (documents : list (Document number))
    (i : nat) (uploadedIds : list string) (st : AdapterState number) :
  upsert_loop be c documents i uploadedIds st
  = if decide (i < length documents) then
      let batch := js_slice i (i + batchSize) documents in
      match uploadDocuments be c batch st with
      | (Fulfilled _, st') =>
          upsert_loop be c documents (i + batchSize)
            (uploadedIds ++ map doc_id batch) st'
      | (Rejected e, st') => (Rejected e, st')
      end
    else (Fulfilled uploadedIds, st).
Proof.
  rewrite upsert_loop_equation_1. unfold upsert_loop_unfold_clause_1.
  destruct (decide (i < length documents)); [|reflexivity].
  cbv zeta.
  destruct (uploadDocuments be c (js_slice i (i + batchSize) documents) st)
    as [[u|e] st']; reflexivity.
Qed.

Lemma batched_snoc_full {A : Type} (batches : list (list A)) (last : list A) :
  batched (batches ++ [last]) → Forall (fun b => length b = batchSize) batches.
Proof.
  induction batches as [|b batches IH]; simpl; [by constructor|].
  destruct (batches ++ [last]) eqn:Happ.
  - by destruct batches.
  - intros [Hb Hrest]. constructor; [exact Hb | by apply IH].
Qed.

(** The upload loop, entered at index [i]: it uploads batch after batch of
    the documents from [i] on, and stops at the first upload that the
    service rejects. *)
Lemma upsert_loop_spec (c : string) (documents : list (Document number))
    (n : nat) :
  ∀ (i : nat) (uploadedIds : list string) (st : AdapterState number),
    length documents - i ≤ n →
    let r := upsert_loop be c documents i uploadedIds st in
    ∃ batches,
      (batches = [] ↔ length documents ≤ i)
      ∧ batched batches
      ∧ st_trace r.2 = st_trace st ++ map (UploadDocuments c) batches
      ∧ match r.1 with
        | Fulfilled ids =>
            concat batches = drop i documents
            ∧ ids = uploadedIds ++ map doc_id (drop i documents)
            ∧ accepted be (st_trace st) c batches
        | Rejected err =>
            ∃ confirmed failed remaining e,
              batches = confirmed ++ [failed]
              ∧ drop i documents = concat confirmed ++ failed ++ remaining
              ∧ accepted be (st_trace st) c confirmed
              ∧ be (st_trace st ++ map (UploadDocuments c) confirmed)
                  (UploadDocuments c failed) = inl e
              ∧ err = BackendFailure e
        end.
Proof.
  induction n as [|n IH]; intros i uploadedIds st Hn r; subst r;
    rewrite upsert_loop_step.
  - destruct (decide (i < length documents)) as [Hlt|Hge]; [lia|].
    exists []. simpl. rewrite app_nil_r, drop_ge, app_nil_r by lia.
    repeat split; auto; lia.
  - destruct (decide (i < length documents)) as [Hlt|Hge].
    2:{ exists []. simpl. rewrite app_nil_r, drop_ge, app_nil_r by lia.
        repeat split; auto; lia. }
    cbv zeta. rewrite js_slice_batch.
    pose proof (batch_length i documents) as Hlen.
    pose proof (batch_split i documents) as Hsplit.
    pose proof batchSize_pos as Hpos.
    set (batch := take batchSize (drop i documents)) in *.
    unfold uploadDocuments, await, answer; simpl.
    destruct (be (st_trace st) (UploadDocuments c batch)) as [e|[]] eqn:Hbe.
    + exists [batch]. simpl. split; [split; [discriminate | lia]|].
      split; [lia|]. split; [reflexivity|].
      exists [], batch, (drop (i + batchSize) documents), e.
      simpl. rewrite app_nil_r. by repeat split.
    + set (st1 := {| st_trace := st_trace st ++ [UploadDocuments c batch];
                     st_searchClients := st_searchClients st;
                     st_uuids := st_uuids st |}).
      destruct (IH (i + batchSize) (uploadedIds ++ map doc_id batch) st1
                  ltac:(lia)) as (batches & Hnil & Hbatched & Htrace & Hout).
      exists (batch :: batches). split; [split; [discriminate | lia]|].
      split.
      { simpl. destruct batches as [|b' batches']; [lia|].
        split; [|exact Hbatched].
        assert (¬ length documents ≤ i + batchSize) by
          (intros Hle; apply Hnil in Hle; discriminate).
        lia. }
      split.
      { rewrite Htrace. simpl. by rewrite <- app_assoc. }
      destruct (upsert_loop be c documents (i + batchSize) _ st1).1
        as [ids|err].
      * destruct Hout as (Hconcat & Hids & Hacc). simpl.
        rewrite Hconcat, Hids, <- Hsplit.
        split; [reflexivity|]. split; [|by split].
        by rewrite <- app_assoc, <- map_app, <- Hsplit.
      * destruct Hout as (confirmed & failed & remaining & e & Hb & Hd & Hacc
                          & Hfail & Herr).
        exists (batch :: confirmed), failed, remaining, e.
        rewrite Hb. simpl. rewrite <- !app_assoc, <- Hd.
        repeat split; auto.
        simpl in Hfail. by rewrite <- app_assoc in Hfail.
Qed.


(** The upload loop, when the service accepts the batches [confirmed] and
    rejects the batch that follows them. *)
Lemma upsert_loop_failure (c : string) (documents : list (Document number))
    (rest : list (Document number)) (e : string) :
  ∀ (confirmed : list (list (Document number))) (i : nat)
    (uploadedIds : list string) (st : AdapterState number),
    drop i documents = concat confirmed ++ rest →
    rest ≠ [] →
    Forall (fun b => length b = batchSize) confirmed →
    accepted be (st_trace st) c confirmed →
    be (st_trace st ++ map (UploadDocuments c) confirmed)
       (UploadDocuments c (take batchSize rest)) = inl e →
    let r := upsert_loop be c documents i uploadedIds st in
    r.1 = Rejected (BackendFailure e)
    ∧ st_trace r.2
      = st_trace st ++ map (UploadDocuments c) confirmed
          ++ [UploadDocuments c (take batchSize rest)].
Proof.
  pose proof batchSize_pos as Hpos.
  induction confirmed as [|b confirmed IH];
    intros i uploadedIds st Hdrop Hrest Hfull Hacc Hfail r; subst r;
    rewrite upsert_loop_step; simpl in Hdrop;
    assert (i < length documents) as Hlt.
  - destruct (decide (i < length documents)); [done|].
    rewrite drop_ge in Hdrop by lia. by destruct rest.
  - rewrite decide_True by done. cbv zeta.
    rewrite js_slice_batch, Hdrop.
    unfold uploadDocuments, await, answer; simpl in *.
    rewrite app_nil_r in Hfail. by rewrite Hfail.
  - apply Forall_cons in Hfull as [Hb _].
    destruct (decide (i < length documents)); [done|].
    rewrite drop_ge in Hdrop by lia. destruct b; [simpl in Hb; lia | done].
  - apply Forall_cons in Hfull as [Hb Hfull]. destruct Hacc as [Hacc1 Hacc].
    rewrite decide_True by done. cbv zeta.
    rewrite js_slice_batch.
    assert (take batchSize (drop i documents) = b) as ->.
    { rewrite Hdrop, <- app_assoc. by rewrite take_app_length'. }
    unfold uploadDocuments, await, answer; simpl.
    rewrite Hacc1.
    set (st1 := {| st_trace := st_trace st ++ [UploadDocuments c b];
                   st_searchClients := st_searchClients st;
                   st_uuids := st_uuids st |}).
    destruct (IH (i + batchSize) (uploadedIds ++ map doc_id b) st1)
      as [Hout Htrace]; try done.
    + rewrite <- drop_drop, Hdrop, <- app_assoc.
      by rewrite drop_app_length'.
    + simpl. by rewrite <- app_assoc.
    + split; [exact Hout|]. rewrite Htrace. simpl. by rewrite <- !app_assoc.
Qed.

(** The callback of [vectors.map] raises nothing and makes no call; the
    documents it builds, position by position. *)
Lemma upsert_documents_spec (ids : option (list string))
    (metadata : list (gmap string (JSValue number)))
    (vectors : list (list number)) :
  ∀ (i : nat) (st : AdapterState number),
    ∃ documents st',
      upsert_documents rt ids metadata i vectors st = (Fulfilled documents, st')
      ∧ st_trace st' = st_trace st
      ∧ map doc_vector documents = vectors
      ∧ (∀ k d, documents !! k = Some d →
           let meta := default ∅ (metadata !! (i + k)) in
           doc_metadata d = JSON_stringify rt (JObj meta)
           ∧ doc_text d = js_coalesce (js_get meta "text") (JStr ""))
      ∧ (ids = None →
           map doc_id documents
           = map (randomUUID rt) (seq (st_uuids st) (length vectors)))
      ∧ (∀ l, ids = Some l → i + length vectors ≤ length l →
           map doc_id documents = take (length vectors) (drop i l)).
Proof.
  induction vectors as [|vector vectors IH]; intros i st.
  - exists [], st. simpl. repeat split; done.
  - simpl. unfold bind at 1.
    set (step := match ids_at ids i with
                 | Some id => ret id
                 | None => crypto_randomUUID rt
                 end st).
    assert (∃ id st1, step = (Fulfilled id, st1)
                      ∧ st_trace st1 = st_trace st
                      ∧ (ids = None → id = randomUUID rt (st_uuids st)
                                      ∧ st_uuids st1 = S (st_uuids st))
                      ∧ (∀ l, ids = Some l → l !! i = Some id ∨ length l ≤ i))
      as (id & st1 & -> & Htr & Hnone & Hsome).
    { subst step. destruct (ids_at ids i) as [id|] eqn:Hat.
      - exists id, st. split; [reflexivity|]. split; [reflexivity|]. split.
        + intros ->. discriminate.
        + intros l ->. by left.
      - eexists _, _. unfold crypto_randomUUID.
        split; [reflexivity|]. split; [reflexivity|]. split; [done|].
        intros l ->. right. simpl in Hat. by apply lookup_ge_None. }
    unfold bind.
    destruct (IH (S i) st1) as (documents & st2 & -> & Htrace & Hvec & Hmeta
                                & Hnone' & Hsome').
    unfold ret. eexists (_ :: documents), st2. simpl.
    split; [reflexivity|]. split; [congruence|]. split; [by rewrite Hvec|].
    split; [|split].
    + intros [|k] d Hd; simpl in Hd.
      * injection Hd as <-. simpl. by rewrite Nat.add_0_r.
      * replace (i + S k) with (S i + k) by lia. by apply Hmeta.
    + intros Hids. destruct (Hnone Hids) as [-> Huu].
      rewrite (Hnone' Hids), Huu. reflexivity.
    + intros l Hids Hlen. destruct (Hsome l Hids) as [Hid|Hge]; [|lia].
      rewrite (Hsome' l Hids) by lia.
      by rewrite (drop_S _ _ _ Hid).
Qed.

Lemma upsert_unfold (params : UpsertVectorParams number)
    (st : AdapterState number) :
  upsert rt be params st
  = bind (upsert_prelude rt be params)
      (fun _ =>
         bind (upsert_documents rt (up_ids params)
                 (default [] (up_metadata params)) 0 (up_vectors params))
           (fun documents =>
              upsert_loop be (up_indexName params) documents 0 [])) st.
Proof. reflexivity. Qed.


(** C1, as the code has it.  Let the documents of an [upsert] call be the
    batches [confirmed], which the service accepts, followed by the
    documents [rest], of which the service rejects the first batch with the
    error [e].  Then no batch after the rejected one is sent, and the call is
    rejected with the error of the service as it is: the promise carries [e]
    and nothing of the ids uploaded by the batches [confirmed]. *)
Theorem upsert_batch_failure_aborts
    (params : UpsertVectorParams number) (st st1 st2 : AdapterState number)
    (documents : list (Document number))
    (confirmed : list (list (Document number)))
    (rest : list (Document number)) (e : string) :
  let indexName := up_indexName params in
  upsert_prelude rt be params st = (Fulfilled tt, st1) →
  upsert_documents rt (up_ids params) (default [] (up_metadata params)) 0
    (up_vectors params) st1 = (Fulfilled documents, st2) →
  documents = concat confirmed ++ rest →
  rest ≠ [] →
  Forall (fun b => length b = batchSize) confirmed →
  accepted be (st_trace st1) indexName confirmed →
  be (st_trace st1 ++ map (UploadDocuments indexName) confirmed)
     (UploadDocuments indexName (take batchSize rest)) = inl e →
  (upsert rt be params st).1 = Rejected (BackendFailure e)
  ∧ st_trace (upsert rt be params st).2
    = st_trace st1 ++ map (UploadDocuments indexName) confirmed
        ++ [UploadDocuments indexName (take batchSize rest)].
Proof.
  intros indexName Hprelude Hdocs Hsplit Hrest Hfull Hacc Hfail.
  rewrite upsert_unfold. unfold bind. rewrite Hprelude, Hdocs.
  destruct (upsert_documents_spec (up_ids params)
              (default [] (up_metadata params)) (up_vectors params) 0 st1)
    as (documents' & st2' & Heq & Htrace & _).
  rewrite Hdocs in Heq. injection Heq as <- <-.
  rewrite <- Htrace in *.
  by apply upsert_loop_failure.
Qed.

(** C2.  Let the first steps of [upsert] succeed, let the service accept
    every upload, and let the identifier generator never repeat itself.
    Then [upsert] on [N] vectors is fulfilled with the ids of the [N]
    documents it uploaded, in order, where document [k] carries vector [k]:
    without explicit ids these are the next [N] identifiers of the
    generator, all distinct; with [N] explicit ids they are exactly those
    ids. *)
Theorem upsert_returns_ids
    (params : UpsertVectorParams number) (st st1 : AdapterState number) :
  let indexName := up_indexName params in
  let N := length (up_vectors params) in
  upsert_prelude rt be params st = (Fulfilled tt, st1) →
  (∀ history batch, be history (UploadDocuments indexName batch) = inr tt) →
  (∀ m n, randomUUID rt m = randomUUID rt n → m = n) →
  ∃ documents batches st',
    upsert rt be params st = (Fulfilled (map doc_id documents), st')
    ∧ length documents = N
    ∧ map doc_vector documents = up_vectors params
    ∧ st_trace st' = st_trace st1 ++ map (UploadDocuments indexName) batches
    ∧ concat batches = documents
    ∧ batched batches
    ∧ (up_ids params = None →
         map doc_id documents
         = map (randomUUID rt) (seq (st_uuids st1) N)
         ∧ NoDup (map doc_id documents))
    ∧ (∀ ids, up_ids params = Some ids → length ids = N →
         map doc_id documents = ids).
Proof.
  intros indexName N Hprelude Haccept Hinj.
  rewrite upsert_unfold. unfold bind. rewrite Hprelude.
  destruct (upsert_documents_spec (up_ids params)
              (default [] (up_metadata params)) (up_vectors params) 0 st1)
    as (documents & st2 & -> & Htrace & Hvec & _ & Hnone & Hsome).
  destruct (upsert_loop_spec indexName documents (length documents) 0 [] st2
              ltac:(lia)) as (batches & _ & Hbatched & Htr & Hout).
  fold indexName.
  destruct (upsert_loop be indexName documents 0 [] st2) as [out st'].
  simpl in Htr, Hout. destruct out as [ids|err].
  2:{ destruct Hout as (confirmed & failed & remaining & e & _ & _ & _
                        & Hfail & _).
      rewrite Haccept in Hfail. discriminate. }
  destruct Hout as (Hconcat & -> & _). rewrite drop_0 in Hconcat.
  exists documents, batches, st'. simpl. rewrite drop_0.
  split; [reflexivity|].
  split; [unfold N; by rewrite <- Hvec, length_map|].
  split; [exact Hvec|]. split; [by rewrite Htr, Htrace|].
  split; [exact Hconcat|]. split; [exact Hbatched|]. split.
  - intros Hids. rewrite (Hnone Hids). split; [reflexivity|].
    apply (NoDup_fmap_2 (randomUUID rt) (Inj0 := Hinj)), NoDup_seq.
  - intros ids Hids Hlen. rewrite (Hsome ids Hids) by (simpl; lia).
    rewrite drop_0. apply take_ge. unfold N in Hlen. lia.
Qed.

(** The result loop keeps the positions of the hits. *)
Lemma query_loop_lookup (iv : bool) (hits : list (SearchHit number))
    (results : list (QueryResult number)) (j : nat) (hit : SearchHit number) :
  query_loop rt iv hits [] = Fulfilled results →
  hits !! j = Some hit →
  ∃ r, results !! j = Some r ∧ query_result rt iv hit = Fulfilled r.
Proof.
  revert results j. induction hits as [|h hits IH]; intros results j; simpl.
  - by intros _ ?.
  - destruct (query_result rt iv h) as [r|e] eqn:Hr; [|discriminate].
    rewrite query_loop_acc.
    destruct (query_loop rt iv hits []) as [rs|] eqn:Hl; [|discriminate].
    intros [= <-]. destruct j as [|j]; simpl.
    + intros [= <-]. by exists r.
    + intros Hj. by apply IH.
Qed.



End upsert_properties.

(** ** The document result parser *)

Section processor_properties.
Context {number : Type}.

Local Abbreviation slots grid :=
  (fmap (M := list) (fmap (M := list) (@Some string)) grid) (only parsing).

Lemma init_cells_spec (n columnCount : nat) (cells : list (list (option string))) :
  init_cells n columnCount cells
  = cells ++ replicate n (replicate columnCount (Some "")).
Proof.
  revert cells. induction n as [|n IH]; intros cells; simpl.
  - by rewrite app_nil_r.
  - by rewrite IH, <- app_assoc.
Qed.

Lemma tabulate_empty (rowCount columnCount : nat) :
  replicate rowCount (replicate columnCount (Some ""))
  = slots (tabulate rowCount columnCount (fun _ _ => "")).
Proof.
  unfold tabulate. rewrite <- list_fmap_compose.
  rewrite (const_fmap _ (seq 0 rowCount) (replicate columnCount (Some ""))).
  - by rewrite length_seq.
  - intros r. simpl. rewrite <- list_fmap_compose.
    rewrite (const_fmap _ (seq 0 columnCount) (Some "")); [|done].
    by rewrite length_seq.
Qed.

Lemma tabulate_ext (rowCount columnCount : nat) (f g : nat → nat → string) :
  (∀ r c, r < rowCount → c < columnCount → f r c = g r c) →
  tabulate rowCount columnCount f = tabulate rowCount columnCount g.
Proof.
  intros Hfg. unfold tabulate.
  apply list_fmap_ext. intros i r Hr. apply lookup_seq in Hr as [-> Hr].
  apply list_fmap_ext. intros j c Hc. apply lookup_seq in Hc as [-> Hc].
  by apply Hfg.
Qed.

Lemma tabulate_lookup (rowCount columnCount : nat) (f : nat → nat → string)
    (r : nat) :
  r < rowCount →
  tabulate rowCount columnCount f !! r
  = Some ((fun c => f r c) <$> seq 0 columnCount).
Proof.
  intros Hr. unfold tabulate. rewrite list_lookup_fmap.
  by rewrite lookup_seq_lt.
Qed.

(** Writing a cell inside the bounds of a full grid raises nothing and
    changes that one position. *)
Lemma write_cell_tabulate (rowCount columnCount : nat) (f : nat → nat → string)
    (r c : nat) (v : string) :
  r < rowCount → c < columnCount →
  write_cell (slots (tabulate rowCount columnCount f)) r c v
  = Fulfilled
      (slots
         (tabulate rowCount columnCount
            (fun r' c' => if decide (r' = r ∧ c' = c) then v else f r' c'))).
Proof.
  intros Hr Hc. unfold write_cell.
  rewrite list_lookup_fmap, tabulate_lookup by done. simpl.
  f_equal. unfold js_array_set.
  rewrite decide_True by (by rewrite !length_fmap, length_seq).
  apply list_eq. intros r'.
  destruct (decide (r' = r)) as [->|Hne].
  - rewrite list_lookup_insert_eq
      by (by rewrite length_fmap; unfold tabulate;
          rewrite length_fmap, length_seq).
    rewrite list_lookup_fmap, tabulate_lookup by done. simpl. f_equal.
    apply list_eq. intros c'.
    destruct (decide (c' = c)) as [->|Hne].
    + rewrite list_lookup_insert_eq by (by rewrite !length_fmap, length_seq).
      rewrite !list_lookup_fmap, lookup_seq_lt by done. simpl.
      by rewrite decide_True.
    + rewrite list_lookup_insert_ne by done.
      rewrite !list_lookup_fmap.
      destruct (seq 0 columnCount !! c') as [c''|] eqn:Hc'; [|done].
      apply lookup_seq in Hc' as [-> _]. simpl.
      by rewrite decide_False by (intros [_ ?]; done).
  - rewrite list_lookup_insert_ne by done.
    rewrite !list_lookup_fmap. unfold tabulate. rewrite !list_lookup_fmap.
    destruct (seq 0 rowCount !! r') as [r''|] eqn:Hr'; [|done].
    apply lookup_seq in Hr' as [-> _]. simpl. do 2 f_equal.
    apply list_fmap_ext. intros j c' _.
    by rewrite decide_False by (intros [? _]; done).
Qed.

(** The loop over the reported cells on a full grid raises nothing, and
    leaves at every position the last content reported for it. *)
Lemma fill_cells_tabulate (rowCount columnCount : nat)
    (reported : list DocumentTableCell) :
  ∀ f : nat → nat → string,
    fill_cells rowCount columnCount reported
      (slots (tabulate rowCount columnCount f))
    = Fulfilled
        (slots
           (tabulate rowCount columnCount
              (fun r c => last_reported r c reported (f r c)))).
Proof.
  induction reported as [|cell rest IH]; intros f; simpl; [done|].
  destruct (decide (cell_rowIndex cell < rowCount
                    ∧ cell_columnIndex cell < columnCount)) as [[Hr Hc]|Hout].
  - rewrite write_cell_tabulate by done. by rewrite IH.
  - rewrite IH. do 2 f_equal. apply tabulate_ext. intros r c Hr Hc.
    rewrite decide_False; [done|]. intros [-> ->]. by apply Hout.
Qed.


Lemma parse_table_grid (table : DocumentTable) :
  ∃ tc, parse_table table = Fulfilled tc ∧ grid_of table tc.
Proof.
  unfold parse_table.
  rewrite init_cells_spec, app_nil_l, tabulate_empty, fill_cells_tabulate.
  eexists. split; [reflexivity|]. unfold grid_of; simpl.
  split; [done|]. split; [done|].
  eexists. split; [reflexivity|].
  split; [by unfold tabulate; rewrite length_fmap, length_seq|].
  split.
  - apply Forall_forall. intros row Hrow. unfold tabulate in Hrow.
    apply list_elem_of_fmap in Hrow as (r & -> & _).
    by rewrite length_fmap, length_seq.
  - intros r c Hr Hc. eexists. split; [by apply tabulate_lookup|].
    by rewrite list_lookup_fmap, lookup_seq_lt.
Qed.

Lemma parse_tables_grid (input : list DocumentTable) :
  ∀ tables : list TableContent,
    ∃ tcs, parse_tables input tables = Fulfilled (tables ++ tcs)
           ∧ Forall2 grid_of input tcs.
Proof.
  induction input as [|table input IH]; intros tables; simpl.
  - exists []. by rewrite app_nil_r.
  - destruct (parse_table_grid table) as (tc & -> & Htc).
    destruct (IH (tables ++ [tc])) as (tcs & -> & Htcs).
    exists (tc :: tcs). rewrite <- app_assoc. by split; [|constructor].
Qed.


Lemma parse_pages_numbers (input : list (DocumentPage number))
    (pages : list (PageContent number)) :
  map pc_pageNumber (parse_pages input pages)
  = map pc_pageNumber pages ++ map page_pageNumber input.
Proof.
  revert pages. induction input as [|page input IH]; intros pages; simpl.
  - by rewrite app_nil_r.
  - by rewrite IH, map_app, <- app_assoc.
Qed.

(** C8, as the code has it.  The parser copies the page numbers: the pages
    of the output carry the page numbers of the pages of the raw result, in
    the same order.  They start at one and never decrease when those of the
    raw result do. *)
Theorem parsed_pages_keep_page_numbers (modelId : string) (now : nat)
    (result : AnalyzeResultOutput number) :
  ∃ doc,
    parseAnalyzeResult modelId now result = Fulfilled doc
    ∧ map pc_pageNumber (pd_pages doc)
      = map page_pageNumber (default [] (result_pages result))
    ∧ (page_numbers_ordered
         (map page_pageNumber (default [] (result_pages result))) →
       page_numbers_ordered (map pc_pageNumber (pd_pages doc))).
Proof.
  unfold parseAnalyzeResult.
  destruct (parse_tables_grid (default [] (result_tables result)) [])
    as (tcs & -> & _).
  eexists. split; [reflexivity|]. simpl.
  rewrite parse_pages_numbers. by split.
Qed.

End processor_properties.

(** ** Deletion by ids *)

Section delete_properties.
Context {number : Type} (rt : JSRuntime number) (be : Backend number).

Local Opaque batchSize.

Lemma deleteVectors_loop_step (c : string) (ids : list string) (i : nat)
    (st : AdapterState number) :
  deleteVectors_loop be c ids i st
  = if decide (i < length ids) then
      match deleteDocuments be c (js_slice i (i + batchSize) ids) st with
      | (Fulfilled _, st') => deleteVectors_loop be c ids (i + batchSize) st'
      | (Rejected e, st') => (Rejected e, st')
      end
    else (Fulfilled tt, st).
Proof.
  rewrite deleteVectors_loop_equation_1.
  unfold deleteVectors_loop_unfold_clause_1.
  destruct (decide (i < length ids)); [|reflexivity].
  destruct (deleteDocuments be c (js_slice i (i + batchSize) ids) st)
    as [[u|e] st']; reflexivity.
Qed.

(** The deletion loop, entered at index [i]. *)
Lemma deleteVectors_loop_spec (c : string) (ids : list string) (n : nat) :
  ∀ (i : nat) (st : AdapterState number),
    length ids - i ≤ n →
    ∃ out st' batches,
      deleteVectors_loop be c ids i st = (out, st')
      ∧ (batches = [] ↔ length ids ≤ i)
      ∧ batched batches
      ∧ st_trace st' = st_trace st ++ map (DeleteDocuments c) batches
      ∧ st_searchClients st' = st_searchClients st
      ∧ st_uuids st' = st_uuids st
      ∧ match out with
        | Fulfilled _ =>
            concat batches = drop i ids
            ∧ accepted_deletions be (st_trace st) c batches
        | Rejected err =>
            ∃ confirmed failed remaining e,
              batches = confirmed ++ [failed]
              ∧ drop i ids = concat confirmed ++ failed ++ remaining
              ∧ accepted_deletions be (st_trace st) c confirmed
              ∧ be (st_trace st ++ map (DeleteDocuments c) confirmed)
                  (DeleteDocuments c failed) = inl e
              ∧ err = BackendFailure e
        end.
Proof.
  induction n as [|n IH]; intros i st Hn; rewrite deleteVectors_loop_step.
  - destruct (decide (i < length ids)) as [Hlt|Hge]; [lia|].
    exists (Fulfilled tt), st, []. simpl. rewrite app_nil_r, drop_ge by lia.
    repeat split; auto; lia.
  - destruct (decide (i < length ids)) as [Hlt|Hge].
    2:{ exists (Fulfilled tt), st, []. simpl.
        rewrite app_nil_r, drop_ge by lia. repeat split; auto; lia. }
    rewrite js_slice_batch.
    pose proof (batch_length i ids) as Hlen.
    pose proof (batch_split i ids) as Hsplit.
    pose proof batchSize_pos as Hpos.
    set (batch := take batchSize (drop i ids)) in *.
    unfold deleteDocuments, await, answer; simpl.
    destruct (be (st_trace st) (DeleteDocuments c batch)) as [e|[]] eqn:Hbe.
    + eexists _, _, [batch]. split; [reflexivity|]. simpl.
      split; [split; [discriminate | lia]|].
      split; [lia|]. do 3 (split; [reflexivity|]).
      exists [], batch, (drop (i + batchSize) ids), e.
      simpl. rewrite app_nil_r. by repeat split.
    + set (st1 := {| st_trace := st_trace st ++ [DeleteDocuments c batch];
                     st_searchClients := st_searchClients st;
                     st_uuids := st_uuids st |}).
      destruct (IH (i + batchSize) st1 ltac:(lia))
        as (out & st' & batches & -> & Hnil & Hbatched & Htrace & Hcl & Huu
            & Hout).
      exists out, st', (batch :: batches). split; [reflexivity|].
      split; [split; [discriminate | lia]|].
      split.
      { simpl. destruct batches as [|b' batches']; [lia|].
        split; [|exact Hbatched].
        assert (¬ length ids ≤ i + batchSize) by
          (intros Hle; apply Hnil in Hle; discriminate).
        lia. }
      split; [rewrite Htrace; simpl; by rewrite <- app_assoc|].
      split; [exact Hcl|]. split; [exact Huu|].
      destruct out as [u|err].
      * destruct Hout as (Hconcat & Hacc). simpl.
        rewrite Hconcat, <- Hsplit. by repeat split.
      * destruct Hout as (confirmed & failed & remaining & e & Hb & Hd & Hacc
                          & Hfail & Herr).
        exists (batch :: confirmed), failed, remaining, e.
        rewrite Hb. simpl. rewrite <- !app_assoc, <- Hd.
        repeat split; auto.
        simpl in Hfail. by rewrite <- app_assoc in Hfail.
Qed.

(** X1.  [deleteVectors] with a non-empty list of ids sends the ids to the
    service in their order, in batches of [batchSize] (the last one may be
    shorter), and sends nothing else: no search, whatever filter comes with
    the ids.  It stops at the first batch that the service rejects and
    passes that error on; the ids of the batches before it are deleted, those
    after it are never sent. *)
Theorem deleteVectors_by_ids_batches (params : DeleteVectorsParams)
    (ids : list string) (st : AdapterState number) :
  dvs_ids params = Some ids →
  0 < length ids →
  let indexName := dvs_indexName params in
  ∃ out st' batches,
    deleteVectors rt be params st = (out, st')
    ∧ batches ≠ []
    ∧ batched batches
    ∧ st_trace st' = st_trace st ++ map (DeleteDocuments indexName) batches
    ∧ match out with
      | Fulfilled _ =>
          concat batches = ids
          ∧ accepted_deletions be (st_trace st) indexName batches
      | Rejected err =>
          ∃ confirmed failed remaining e,
            batches = confirmed ++ [failed]
            ∧ ids = concat confirmed ++ failed ++ remaining
            ∧ accepted_deletions be (st_trace st) indexName confirmed
            ∧ be (st_trace st ++ map (DeleteDocuments indexName) confirmed)
                (DeleteDocuments indexName failed) = inl e
            ∧ err = BackendFailure e
      end.
Proof.
  intros Hids Hlen indexName.
  unfold deleteVectors, bind, getSearchClient. rewrite Hids. fold indexName.
  destruct (decide (0 < length ids)); [|lia].
  set (st0 := {| st_trace := st_trace st;
                 st_searchClients := _;
                 st_uuids := st_uuids st |}).
  destruct (deleteVectors_loop_spec indexName ids (length ids) 0 st0
              ltac:(lia))
    as (out & st' & batches & -> & Hnil & Hbatched & Htrace & _ & _ & Hout).
  exists out, st', batches. split; [reflexivity|].
  split; [intros Hb; apply Hnil in Hb; lia|].
  split; [exact Hbatched|]. split; [exact Htrace|].
  rewrite drop_0 in Hout. exact Hout.
Qed.

(** X2.  [deleteVector] does what [deleteVectors] does with the one id in
    its list, whatever filter comes with it: the same call to the service,
    the same outcome, the same state. *)
Theorem deleteVector_as_deleteVectors (indexName id : string)
    (filter : option AzureSearchFilter) (st : AdapterState number) :
  deleteVector be {| dv_indexName := indexName; dv_id := id |} st
  = deleteVectors rt be {| dvs_indexName := indexName;
                           dvs_ids := Some [id];
                           dvs_filter := filter |} st.
Proof.
  unfold deleteVector, deleteVectors; simpl.
  unfold bind, getSearchClient.
  rewrite deleteVectors_loop_step; simpl.
  pose proof batchSize_pos as Hpos.
  assert (js_slice 0 batchSize [id] = [id]) as ->.
  { unfold js_slice. rewrite Nat.sub_0_r, drop_0. apply take_ge. simpl. lia. }
  unfold deleteDocuments, await; simpl.
  destruct (answer be (st_trace st) (DeleteDocuments indexName [id]))
    as [[]|e]; [|reflexivity].
  rewrite deleteVectors_loop_step.
  destruct (decide (batchSize < length [id])) as [Hlt|_]; [|reflexivity].
  simpl in Hlt. lia.
Qed.

End delete_properties.

(** ** More on [upsert] *)

Section upsert_more.
Context {number : Type} (rt : JSRuntime number) (be : Backend number).

Local Opaque batchSize.

(** Batches as the loop cuts them are as many as the length asks for. *)
Lemma batched_count {A : Type} (batches : list (list A)) :
  batched batches →
  length batches = (length (concat batches) + batchSize - 1) / batchSize.
Proof.
  pose proof batchSize_pos as Hpos.
  induction batches as [|b batches IH]; simpl.
  - intros _. symmetry. apply Nat.div_small. lia.
  - destruct batches as [|b' batches].
    + intros Hb. simpl. rewrite app_nil_r.
      apply (Nat.div_unique _ _ 1 (length b - 1)); lia.
    + intros [Hb Hrest]. rewrite (IH Hrest), length_app, Hb.
      replace (batchSize + length (concat (b' :: batches)) + batchSize - 1)
        with (1 * batchSize + (length (concat (b' :: batches)) + batchSize - 1))
        by lia.
      rewrite Nat.div_add_l by lia. reflexivity.
Qed.

(** Batch [j] holds the elements from [j * batchSize] on. *)
Lemma batched_lookup {A : Type} (batches : list (list A)) :
  batched batches →
  ∀ j b, batches !! j = Some b →
    b = take batchSize (drop (j * batchSize) (concat batches)).
Proof.
  induction batches as [|b0 batches IH]; intros Hbatched j b Hj; [done|].
  destruct j as [|j]; simpl in Hj.
  - injection Hj as ->. simpl.
    destruct batches as [|b' batches].
    + simpl. rewrite app_nil_r. symmetry. apply take_ge.
      simpl in Hbatched. lia.
    + destruct Hbatched as [Hb _]. symmetry. by apply take_app_length'.
  - destruct batches as [|b' batches]; [done|].
    destruct Hbatched as [Hb Hrest].
    change (concat (b0 :: b' :: batches))
      with (b0 ++ concat (b' :: batches)).
    replace (S j * batchSize) with (batchSize + j * batchSize) by lia.
    rewrite drop_app_add' by done. by apply IH.
Qed.

(** X3.  When its first steps succeed and the service accepts every upload,
    [upsert] on [N] vectors makes the uploads that [N] asks for and no
    other call: [N] over [batchSize], rounded up, so none for no vector and
    two for [batchSize + 1] vectors.  Upload [j] carries the vectors from
    position [j * batchSize] on, [batchSize] of them or what is left, with
    the ids that the call returns for these positions. *)
Theorem upsert_uploads_by_batch
    (params : UpsertVectorParams number) (st st1 : AdapterState number) :
  let indexName := up_indexName params in
  let vectors := up_vectors params in
  upsert_prelude rt be params st = (Fulfilled tt, st1) →
  (∀ history batch, be history (UploadDocuments indexName batch) = inr tt) →
  ∃ ids batches st',
    upsert rt be params st = (Fulfilled ids, st')
    ∧ st_trace st' = st_trace st1 ++ map (UploadDocuments indexName) batches
    ∧ length batches = (length vectors + batchSize - 1) / batchSize
    ∧ ∀ j batch, batches !! j = Some batch →
        map doc_vector batch = take batchSize (drop (j * batchSize) vectors)
        ∧ map doc_id batch = take batchSize (drop (j * batchSize) ids).
Proof.
  intros indexName vectors Hprelude Haccept.
  rewrite upsert_unfold. unfold bind. rewrite Hprelude.
  destruct (upsert_documents_spec rt (up_ids params)
              (default [] (up_metadata params)) (up_vectors params) 0 st1)
    as (documents & st2 & -> & Htrace & Hvec & _).
  destruct (upsert_loop_spec be indexName documents (length documents) 0 [] st2
              ltac:(lia)) as (batches & _ & Hbatched & Htr & Hout).
  fold indexName.
  destruct (upsert_loop be indexName documents 0 [] st2) as [out st'].
  simpl in Htr, Hout. destruct out as [ids|err].
  2:{ destruct Hout as (confirmed & failed & remaining & e & _ & _ & _
                        & Hfail & _).
      rewrite Haccept in Hfail. discriminate. }
  destruct Hout as (Hconcat & -> & _). rewrite drop_0 in Hconcat.
  exists (map doc_id documents), batches, st'. simpl. rewrite drop_0.
  split; [reflexivity|]. split; [by rewrite Htr, Htrace|].
  split.
  - rewrite (batched_count batches Hbatched), Hconcat.
    unfold vectors. by rewrite <- Hvec, length_map.
  - intros j batch Hj.
    rewrite (batched_lookup batches Hbatched j batch Hj), Hconcat.
    unfold vectors. rewrite <- Hvec.
    by rewrite !skipn_map, !firstn_map.
Qed.

(** The ids of the documents when [ids] is given: the ids of the list, and
    generated ones past its end. *)
Lemma upsert_documents_ids (l : list string)
    (metadata : list (gmap string (JSValue number)))
    (vectors : list (list number)) :
  ∀ (i : nat) (st : AdapterState number),
    ∃ documents st',
      upsert_documents rt (Some l) metadata i vectors st
      = (Fulfilled documents, st')
      ∧ map doc_id documents
        = take (length vectors) (drop i l)
            ++ map (randomUUID rt)
                 (seq (st_uuids st) (length vectors - (length l - i))).
Proof.
  induction vectors as [|vector vectors IH]; intros i st.
  - exists [], st. by rewrite take_0.
  - simpl upsert_documents. unfold bind at 1. simpl ids_at.
    destruct (l !! i) as [id|] eqn:Hid.
    + unfold ret at 1. unfold bind.
      destruct (IH (S i) st) as (documents & st' & -> & Hids).
      eexists _, _. split; [reflexivity|]. simpl map.
      rewrite Hids, (drop_S _ _ _ Hid). simpl take.
      apply lookup_lt_Some in Hid.
      replace (S (length vectors) - (length l - i))
        with (length vectors - (length l - S i)) by lia.
      reflexivity.
    + unfold crypto_randomUUID at 1. unfold bind.
      apply lookup_ge_None in Hid.
      set (st1 := {| st_trace := st_trace st;
                     st_searchClients := st_searchClients st;
                     st_uuids := S (st_uuids st) |}).
      destruct (IH (S i) st1) as (documents & st' & -> & Hids).
      eexists _, _. split; [reflexivity|]. simpl map.
      rewrite Hids, !drop_ge, !take_nil by lia. simpl.
      replace (length l - i) with 0 by lia.
      replace (length l - S i) with 0 by lia.
      by rewrite Nat.sub_0_r.
Qed.

(** X4.  When the list of explicit ids is shorter than the list of vectors,
    the first vectors take the explicit ids in order and each vector past
    the end of the list takes the next identifier of the generator: with
    its first steps succeeding and every upload accepted, [upsert] returns
    the explicit ids followed by the generated ones. *)
Theorem upsert_fills_missing_ids
    (params : UpsertVectorParams number) (ids : list string)
    (st st1 : AdapterState number) :
  let indexName := up_indexName params in
  let N := length (up_vectors params) in
  up_ids params = Some ids →
  length ids ≤ N →
  upsert_prelude rt be params st = (Fulfilled tt, st1) →
  (∀ history batch, be history (UploadDocuments indexName batch) = inr tt) →
  (upsert rt be params st).1
  = Fulfilled
      (ids ++ map (randomUUID rt) (seq (st_uuids st1) (N - length ids))).
Proof.
  intros indexName N Hids Hlen Hprelude Haccept.
  rewrite upsert_unfold. unfold bind. rewrite Hprelude, Hids.
  destruct (upsert_documents_ids ids (default [] (up_metadata params))
              (up_vectors params) 0 st1)
    as (documents & st2 & -> & Hdocids).
  destruct (upsert_loop_spec be indexName documents (length documents) 0 [] st2
              ltac:(lia)) as (batches & _ & _ & _ & Hout).
  fold indexName.
  destruct (upsert_loop be indexName documents 0 [] st2) as [out st'].
  simpl in Hout. destruct out as [out|err].
  2:{ destruct Hout as (confirmed & failed & remaining & e & _ & _ & _
                        & Hfail & _).
      rewrite Haccept in Hfail. discriminate. }
  destruct Hout as (_ & -> & _). simpl. rewrite drop_0, Hdocids, drop_0.
  rewrite take_ge by (unfold N in Hlen; lia).
  by rewrite Nat.sub_0_r.
Qed.

End upsert_more.

Section upsert_replace.
Context {number : Type} (rt : JSRuntime number) (be : Backend number).



(** The documents that [upsert] builds once its first steps are done, and
    the batches of them that it sends. *)
Lemma upsert_uploaded_documents
    (params : UpsertVectorParams number) (st st1 : AdapterState number) :
  upsert_prelude rt be params st = (Fulfilled tt, st1) →
  ∃ documents batches rest,
    map doc_vector documents = up_vectors params
    ∧ (∀ k d, documents !! k = Some d →
         let meta := default ∅ (default [] (up_metadata params) !! k) in
         doc_metadata d = JSON_stringify rt (JObj meta)
         ∧ doc_text d = js_coalesce (js_get meta "text") (JStr ""))
    ∧ documents = concat batches ++ rest
    ∧ st_trace (upsert rt be params st).2
      = st_trace st1 ++ map (UploadDocuments (up_indexName params)) batches.
Proof.
  intros Hprelude.
  rewrite upsert_unfold. unfold bind. rewrite Hprelude.
  destruct (upsert_documents_spec rt (up_ids params)
              (default [] (up_metadata params)) (up_vectors params) 0 st1)
    as (documents & st2 & -> & Htrace & Hvec & Hmeta & _).
  destruct (upsert_loop_spec be (up_indexName params) documents
              (length documents) 0 [] st2 ltac:(lia))
    as (batches & _ & _ & Htr & Hout).
  destruct (upsert_loop be (up_indexName params) documents 0 [] st2)
    as [out st'].
  simpl in Htr, Hout.
  assert (∃ rest, documents = concat batches ++ rest) as [rest Hrest].
  { destruct out as [ids|err].
    - destruct Hout as (Hconcat & _). rewrite drop_0 in Hconcat.
      exists []. by rewrite app_nil_r.
    - destruct Hout as (confirmed & failed & remaining & e & -> & Hd & _).
      rewrite drop_0 in Hd. exists remaining.
      by rewrite concat_app, Hd; simpl; rewrite app_nil_r, <- app_assoc. }
  exists documents, batches, rest. simpl.
  split; [done|]. split; [exact Hmeta|]. split; [done|].
  by rewrite Htr, Htrace.
Qed.

(** X6.  Whatever the service answers to the uploads, every document that
    [upsert] uploads goes to the index of the call and has the stored form:
    one of the vectors of the call, metadata that is the serialization of an
    object, and a text that is never [null] or [undefined]. *)
Theorem upsert_uploads_stored_form
    (params : UpsertVectorParams number) (st st1 : AdapterState number) :
  upsert_prelude rt be params st = (Fulfilled tt, st1) →
  ∃ batches,
    st_trace (upsert rt be params st).2
    = st_trace st1 ++ map (UploadDocuments (up_indexName params)) batches
    ∧ Forall (Forall (stored_form rt (up_vectors params))) batches.
Proof.
  intros Hprelude.
  destruct (upsert_uploaded_documents params st st1 Hprelude)
    as (documents & batches & rest & Hvec & Hmeta & Hrest & Htrace).
  exists batches. split; [exact Htrace|].
  assert (Forall (stored_form rt (up_vectors params)) documents) as Hdocs.
  { apply Forall_forall. intros d Hd.
    destruct (proj1 (list_elem_of_lookup documents d) Hd) as [k Hk].
    destruct (Hmeta k d Hk) as [Hm Ht]. simpl in Hm, Ht.
    split; [|split].
    - rewrite <- Hvec. by apply (list_elem_of_fmap_2 doc_vector).
    - rewrite Ht. unfold js_coalesce.
      by destruct (js_nullish (js_get _ "text")) eqn:Hn.
    - eauto. }
  rewrite Hrest in Hdocs. apply Forall_app in Hdocs as [Hdocs _].
  by apply Forall_concat.
Qed.

End upsert_replace.

(** ** More on [query] and [updateVector] *)

Section query_more.
Context {number : Type} (rt : JSRuntime number) (be : Backend number).




(** X8.  The stored text wins over the metadata: for a hit whose metadata
    parses to an object, the result of [query] at the position of the hit
    carries that object with its [text] replaced by the stored text when
    that is truthy, and that object unchanged otherwise. *)
Theorem query_text_overrides_metadata
    (params : QueryVectorParams number) (st : AdapterState number)
    (hits : list (SearchHit number)) (results : list (QueryResult number))
    (j : nat) (h : SearchHit number) (s : string)
    (m : gmap string (JSValue number)) :
  be (st_trace st) (Search (q_indexName params) "*" (query_options params))
  = inr hits →
  (query rt be params st).1 = Fulfilled results →
  hits !! j = Some h →
  hit_metadata h = JStr s →
  s ≠ "" →
  JSON_parse rt s = Some (JObj m) →
  ∃ r, results !! j = Some r
       ∧ qr_metadata r
         = JObj (if js_truthy rt (hit_text h)
                 then <["text" := hit_text h]> m
                 else m).
Proof.
  intros Hsearch Hquery Hj Hmeta Hne Hparse.
  rewrite query_run in Hquery. simpl in Hquery. rewrite Hsearch in Hquery.
  destruct (query_loop_lookup rt _ hits results j h Hquery Hj)
    as (r & Hr & Hres).
  exists r. split; [exact Hr|].
  unfold query_result, query_metadata in Hres. rewrite Hmeta in Hres.
  simpl in Hres. apply String.eqb_neq in Hne. rewrite Hne in Hres.
  simpl in Hres. rewrite Hparse in Hres.
  destruct (js_truthy rt (hit_text h)); simpl in Hres; by injection Hres as <-.
Qed.

(** X9.  The two paths of [updateVector] write the text field differently
    for an update that carries metadata.  By id, the one merged document
    carries the [text] of the metadata when it is truthy and no text field
    otherwise, so that the stored text stays as it is.  By filter, every
    merged document carries a text field: the [text] of the metadata, or the
    empty string when that is [null] or [undefined]. *)
Theorem updateVector_text_by_path
    (params : UpdateVectorParams number) (st : AdapterState number)
    (metadata : gmap string (JSValue number)) :
  update_metadata (uv_update params) = Some metadata →
  let text := js_get metadata "text" in
  (∀ id, truthy_id (uv_id params) = Some id →
     ∃ d, st_trace (updateVector rt be params st).2
          = st_trace st ++ [MergeDocuments (uv_indexName params) [d]]
          ∧ merge_id d = id
          ∧ merge_metadata d = Some (JSON_stringify rt (JObj metadata))
          ∧ merge_text d = (if js_truthy rt text then Some text else None))
  ∧ (∀ filter documents,
       update_by_filter params filter →
       last (st_trace (updateVector rt be params st).2)
       = Some (MergeDocuments (uv_indexName params) documents) →
       Forall (fun d =>
                 merge_metadata d = Some (JSON_stringify rt (JObj metadata))
                 ∧ merge_text d = Some (js_coalesce text (JStr "")))
         documents).
Proof.
  intros Hmeta text. split.
  - intros id Hid. eexists. split.
    + unfold updateVector. rewrite Hid.
      unfold bind, getSearchClient, mergeDocuments, await; reflexivity.
    + unfold updateVector_document. rewrite Hmeta. by repeat split.
  - intros filter documents Hby Hlast.
    pose proof (updateVector_by_filter_run rt be params filter st Hby) as Hrun.
    cbv zeta in Hrun.
    assert (Forall (carries_update rt (uv_update params)) documents) as Hdocs.
    { destruct (be (st_trace st) _) as [e|hits].
      { destruct Hrun as [_ Htr]. rewrite Htr, last_snoc in Hlast.
        discriminate. }
      destruct (query_loop rt false hits []) as [results|e].
      2:{ destruct Hrun as [_ Htr]. rewrite Htr, last_snoc in Hlast.
          discriminate. }
      destruct (decide (0 < length results)).
      - destruct Hrun as [_ Htr].
        rewrite Htr in Hlast.
        change [?a; ?b] with ([a] ++ [b]) in Hlast.
        rewrite app_assoc, last_snoc in Hlast. injection Hlast as <-.
        apply updateVector_filter_document_carries.
      - destruct Hrun as [_ Htr]. rewrite Htr, last_snoc in Hlast.
        discriminate. }
    eapply Forall_impl; [exact Hdocs|].
    intros d (_ & Hm & Ht). rewrite Hmeta in Hm, Ht. by split.
Qed.

End query_more.

(** ** The cache of clients *)

Section client_cache.
Context {number : Type} (rt : JSRuntime number) (be : Backend number).

(** A relation between states that looks at the cache only and that
    [getSearchClient] on [indexName] keeps. *)
Variable R : AdapterState number → AdapterState number → Prop.
Variable indexName : string.
Hypothesis R_ok : cache_relation R indexName.

Lemma cache_relation_refl (st : AdapterState number) : R st st.
Proof. exact (proj1 R_ok st). Qed.

Lemma cache_relation_trans (st1 st2 st3 : AdapterState number) :
  R st1 st2 → R st2 st3 → R st1 st3.
Proof. exact (proj1 (proj2 R_ok) st1 st2 st3). Qed.

Lemma cache_relation_clients (st st' : AdapterState number) :
  st_searchClients st' = st_searchClients st → R st st'.
Proof. exact (proj1 (proj2 (proj2 R_ok)) st st'). Qed.

Lemma cache_relation_get : keeps R (getSearchClient indexName).
Proof. exact (proj2 (proj2 (proj2 R_ok))). Qed.

Lemma keeps_ret {A : Type} (a : A) : keeps R (ret a).
Proof. intros st. apply cache_relation_refl. Qed.

Lemma keeps_lift {A : Type} (o : Outcome A) : keeps R (lift o).
Proof. intros st. apply cache_relation_refl. Qed.

Lemma keeps_await (c : Call number) : keeps R (await be c).
Proof. intros st. by apply cache_relation_clients. Qed.

Lemma keeps_randomUUID : keeps R (crypto_randomUUID rt).
Proof. intros st. by apply cache_relation_clients. Qed.

Lemma keeps_bind {A B : Type} (c : M number A) (k : A → M number B) :
  keeps R c → (∀ a, keeps R (k a)) → keeps R (bind c k).
Proof.
  intros Hc Hk st. unfold bind. specialize (Hc st).
  destruct (c st) as [[a|e] st1]; simpl in *; [|exact Hc].
  exact (cache_relation_trans _ _ _ Hc (Hk a st1)).
Qed.

Lemma keeps_query (params : QueryVectorParams number) :
  q_indexName params = indexName → keeps R (query rt be params).
Proof.
  intros Hname. unfold query, search. rewrite Hname.
  apply keeps_bind; [exact cache_relation_get|]. intros c.
  apply keeps_bind; [apply keeps_await|]. intros results. apply keeps_lift.
Qed.

Lemma keeps_deleteVectors_loop (c : string) (ids : list string) (i : nat) :
  keeps R (deleteVectors_loop be c ids i).
Proof.
  intros st.
  destruct (deleteVectors_loop_spec be c ids (length ids - i) i st
              ltac:(lia)) as (out & st' & batches & -> & _ & _ & _ & Hcl & _).
  by apply cache_relation_clients.
Qed.

Lemma keeps_deleteVectors (params : DeleteVectorsParams) :
  dvs_indexName params = indexName → keeps R (deleteVectors rt be params).
Proof.
  intros Hname. unfold deleteVectors. rewrite Hname.
  apply keeps_bind; [exact cache_relation_get|]. intros c.
  assert (keeps R (deleteVectors_by_filter rt be c indexName
                     (dvs_filter params))) as Hfilter.
  { unfold deleteVectors_by_filter.
    destruct (dvs_filter params) as [f|]; [|apply keeps_ret].
    apply keeps_bind; [by apply keeps_query|]. intros results.
    destruct (decide (0 < length results));
      [apply keeps_await | apply keeps_ret]. }
  destruct (dvs_ids params) as [ids|]; [|exact Hfilter].
  destruct (decide (0 < length ids)); [|exact Hfilter].
  apply keeps_deleteVectors_loop.
Qed.

Lemma keeps_deleteVector (params : DeleteVectorParams) :
  dv_indexName params = indexName → keeps R (deleteVector be params).
Proof.
  intros Hname. unfold deleteVector, deleteDocuments. rewrite Hname.
  apply keeps_bind; [exact cache_relation_get|]. intros c. apply keeps_await.
Qed.

Lemma keeps_updateVector (params : UpdateVectorParams number) :
  uv_indexName params = indexName → keeps R (updateVector rt be params).
Proof.
  intros Hname. unfold updateVector. rewrite Hname.
  destruct (truthy_id (uv_id params)) as [id|].
  - apply keeps_bind; [exact cache_relation_get|]. intros c. apply keeps_await.
  - destruct (uv_filter params) as [f|]; [|apply keeps_ret].
    apply keeps_bind; [by apply keeps_query|]. intros results.
    apply keeps_bind; [exact cache_relation_get|]. intros c.
    destruct (decide _); [apply keeps_await | apply keeps_ret].
Qed.

Lemma keeps_upsert_documents (ids : option (list string))
    (metadata : list (gmap string (JSValue number)))
    (vectors : list (list number)) (i : nat) :
  keeps R (upsert_documents rt ids metadata i vectors).
Proof.
  revert i. induction vectors as [|vector vectors IH]; intros i; simpl.
  - apply keeps_ret.
  - apply keeps_bind.
    + destruct (ids_at ids i); [apply keeps_ret | apply keeps_randomUUID].
    + intros id. apply keeps_bind; [apply IH|]. intros ds. apply keeps_ret.
Qed.

Lemma keeps_upsert_loop (c : string) (documents : list (Document number))
    (n : nat) :
  ∀ i uploadedIds, length documents - i ≤ n →
    keeps R (upsert_loop be c documents i uploadedIds).
Proof.
  induction n as [|n IH]; intros i uploadedIds Hn st;
    rewrite upsert_loop_step;
    (destruct (decide (i < length documents)) as [Hlt|Hge];
     [|apply cache_relation_refl]); [lia|].
  cbv zeta. unfold uploadDocuments.
  pose proof (keeps_await (UploadDocuments c
                             (js_slice i (i + batchSize) documents)) st)
    as Hcall.
  destruct (await be _ st) as [[u|e] st1]; simpl in Hcall; [|exact Hcall].
  refine (cache_relation_trans _ _ _ Hcall (IH _ _ _ st1)).
  unfold batchSize. lia.
Qed.

Lemma keeps_upsert (params : UpsertVectorParams number) :
  up_indexName params = indexName → keeps R (upsert rt be params).
Proof.
  intros Hname. unfold upsert. rewrite Hname.
  apply keeps_bind; [exact cache_relation_get|]. intros c.
  apply keeps_bind.
  { unfold upsert_deleteFilter.
    destruct (up_deleteFilter params) as [f|]; [|apply keeps_ret].
    destruct (js_truthy rt f); [|apply keeps_ret].
    by apply keeps_deleteVectors. }
  intros _. apply keeps_bind; [apply keeps_upsert_documents|].
  intros documents. by apply (keeps_upsert_loop _ _ (length documents)); lia.
Qed.

Lemma keeps_describeIndex : keeps R (describeIndex be indexName).
Proof.
  unfold describeIndex.
  apply keeps_bind; [apply keeps_await|]. intros index.
  apply keeps_bind; [exact cache_relation_get|]. intros c.
  apply keeps_bind; [apply keeps_await|]. intros n. apply keeps_ret.
Qed.

End client_cache.

Section cache_properties.
Context {number : Type} (rt : JSRuntime number) (be : Backend number).

Lemma other_clients_kept_refl (indexName : string) (st : AdapterState number) :
  other_clients_kept indexName st st.
Proof. by intros other _. Qed.

Lemma other_clients_kept_trans (indexName : string)
    (st1 st2 st3 : AdapterState number) :
  other_clients_kept indexName st1 st2 → other_clients_kept indexName st2 st3 →
  other_clients_kept indexName st1 st3.
Proof.
  intros H12 H23 other Hne. by rewrite (H23 other Hne), (H12 other Hne).
Qed.

Lemma other_clients_kept_clients (indexName : string)
    (st st' : AdapterState number) :
  st_searchClients st' = st_searchClients st →
  other_clients_kept indexName st st'.
Proof. intros Heq other _. by rewrite Heq. Qed.

Lemma other_clients_kept_get (indexName : string) :
  keeps (number := number) (other_clients_kept indexName)
    (getSearchClient indexName).
Proof.
  intros st other Hne. unfold getSearchClient; simpl.
  destruct (decide (indexName ∈ st_searchClients st)); [done|].
  rewrite elem_of_union, elem_of_singleton. tauto.
Qed.

Lemma other_clients_kept_delete (indexName : string) :
  keeps (number := number) (other_clients_kept indexName)
    (searchClients_delete indexName).
Proof.
  intros st other Hne. unfold searchClients_delete; simpl.
  rewrite elem_of_difference, elem_of_singleton. tauto.
Qed.

Lemma clients_grow_refl (st : AdapterState number) : clients_grow st st.
Proof. unfold clients_grow. set_solver. Qed.

Lemma clients_grow_trans (st1 st2 st3 : AdapterState number) :
  clients_grow st1 st2 → clients_grow st2 st3 → clients_grow st1 st3.
Proof. unfold clients_grow. set_solver. Qed.

Lemma clients_grow_clients (st st' : AdapterState number) :
  st_searchClients st' = st_searchClients st → clients_grow st st'.
Proof. unfold clients_grow. intros ->. set_solver. Qed.

Lemma clients_grow_get (indexName : string) :
  keeps (number := number) clients_grow (getSearchClient indexName).
Proof.
  intros st. unfold clients_grow, getSearchClient; simpl.
  destruct (decide (indexName ∈ st_searchClients st)); set_solver.
Qed.

(** A computation that starts by taking the client of [indexName] and never
    evicts a client afterwards leaves that client in the cache. *)
Lemma cached_after_get {A : Type} (indexName : string)
    (k : string → M number A) (st : AdapterState number) :
  (∀ c, keeps clients_grow (k c)) →
  indexName ∈ st_searchClients (bind (getSearchClient indexName) k st).2.
Proof.
  intros Hk. unfold bind, getSearchClient.
  match goal with
  | |- context [k indexName ?st0] => specialize (Hk indexName st0)
  end.
  apply Hk; simpl.
  destruct (decide (indexName ∈ st_searchClients st)); set_solver.
Qed.

Lemma other_clients_kept_relation (indexName : string) :
  cache_relation (number := number) (other_clients_kept indexName) indexName.
Proof.
  split; [apply other_clients_kept_refl|].
  split; [apply other_clients_kept_trans|].
  split; [apply other_clients_kept_clients | apply other_clients_kept_get].
Qed.

Lemma clients_grow_relation (indexName : string) :
  cache_relation (number := number) clients_grow indexName.
Proof.
  split; [apply clients_grow_refl|].
  split; [apply clients_grow_trans|].
  split; [apply clients_grow_clients | apply clients_grow_get].
Qed.

(** X10.  Whatever the service answers, an operation of the adapter on one
    index leaves the cached clients of all the other indexes as they were:
    each one is cached afterwards exactly when it was cached before;
    [listIndexes] leaves the whole cache as it was. *)
Theorem operations_keep_other_clients :
  (∀ params, keeps (other_clients_kept (ci_indexName params))
               (createIndex be params))
  ∧ keeps (λ st st', st_searchClients st' = st_searchClients st)
      (listIndexes be)
  ∧ (∀ indexName, keeps (other_clients_kept indexName)
                    (describeIndex be indexName))
  ∧ (∀ indexName, keeps (other_clients_kept indexName)
                    (deleteIndex be indexName))
  ∧ (∀ params, keeps (other_clients_kept (up_indexName params))
                 (upsert rt be params))
  ∧ (∀ params, keeps (other_clients_kept (q_indexName params))
                 (query rt be params))
  ∧ (∀ params, keeps (other_clients_kept (uv_indexName params))
                 (updateVector rt be params))
  ∧ (∀ params, keeps (other_clients_kept (dv_indexName params))
                 (deleteVector be params))
  ∧ (∀ params, keeps (other_clients_kept (dvs_indexName params))
                 (deleteVectors rt be params)).
Proof.
  pose proof other_clients_kept_relation as Hrel.
  split_and!.
  - intros params. unfold createIndex.
    eapply keeps_bind; [apply Hrel | by eapply keeps_await |].
    intros _ st. apply other_clients_kept_delete.
  - intros st. unfold listIndexes, bind, await.
    by destruct (answer be (st_trace st) ListIndexes).
  - intros indexName. by eapply keeps_describeIndex.
  - intros indexName. unfold deleteIndex.
    eapply keeps_bind; [apply Hrel | by eapply keeps_await |].
    intros _ st. apply other_clients_kept_delete.
  - intros params. by eapply keeps_upsert.
  - intros params. by eapply keeps_query.
  - intros params. by eapply keeps_updateVector.
  - intros params. by eapply keeps_deleteVector.
  - intros params. by eapply keeps_deleteVectors.
Qed.

Local Tactic Notation "by_relation" uconstr(lemma) :=
  eapply lemma; exact (clients_grow_relation ""%string).

(** X11.  The operations on the records of an index never evict a cached
    client, and after [upsert], [query], [deleteVector] and [deleteVectors]
    the client of their index is cached, whether the operation succeeded or
    not.  A successful [createIndex] or [deleteIndex] evicts the client of
    its index; a failed one leaves the cache as it was. *)
Theorem cache_after_operations (st : AdapterState number) :
  (∀ params, let st' := (upsert rt be params st).2 in
     clients_grow st st' ∧ up_indexName params ∈ st_searchClients st')
  ∧ (∀ params, let st' := (query rt be params st).2 in
       clients_grow st st' ∧ q_indexName params ∈ st_searchClients st')
  ∧ (∀ params, let st' := (deleteVector be params st).2 in
       clients_grow st st' ∧ dv_indexName params ∈ st_searchClients st')
  ∧ (∀ params, let st' := (deleteVectors rt be params st).2 in
       clients_grow st st' ∧ dvs_indexName params ∈ st_searchClients st')
  ∧ (∀ params, clients_grow st (updateVector rt be params st).2)
  ∧ (∀ indexName, clients_grow st (describeIndex be indexName st).2)
  ∧ (∀ params, match createIndex be params st with
               | (Fulfilled _, st') =>
                   st_searchClients st'
                   = st_searchClients st ∖ {[ci_indexName params]}
               | (Rejected _, st') =>
                   st_searchClients st' = st_searchClients st
               end)
  ∧ (∀ indexName, match deleteIndex be indexName st with
                  | (Fulfilled _, st') =>
                      st_searchClients st'
                      = st_searchClients st ∖ {[indexName]}
                  | (Rejected _, st') =>
                      st_searchClients st' = st_searchClients st
                  end).
Proof.
  pose proof clients_grow_relation as Hrel.
  assert (∀ indexName (params : QueryVectorParams number),
            q_indexName params = indexName →
            keeps clients_grow (query rt be params)) as Hquery.
  { intros indexName params. by eapply keeps_query. }
  assert (∀ indexName (params : DeleteVectorsParams),
            dvs_indexName params = indexName →
            keeps clients_grow (deleteVectors rt be params)) as Hdelete.
  { intros indexName params. by eapply keeps_deleteVectors. }
  split_and!.
  - intros params; split; [by eapply keeps_upsert|].
    unfold upsert. apply cached_after_get. intros c.
    eapply keeps_bind; [apply (Hrel ""%string) | |].
    { unfold upsert_deleteFilter.
      destruct (up_deleteFilter params) as [f|]; [|by intros ?; apply clients_grow_refl].
      destruct (js_truthy rt f); [|by intros ?; apply clients_grow_refl].
      by eapply Hdelete. }
    intros _. eapply keeps_bind;
      [apply (Hrel ""%string) | by_relation keeps_upsert_documents |].
    intros documents.
    eapply (keeps_upsert_loop _ _ _ (Hrel ""%string) _ _ (length documents)).
    lia.
  - intros params; split; [by eapply keeps_query|].
    unfold query. apply cached_after_get. intros c.
    eapply keeps_bind; [apply (Hrel ""%string) | by_relation (keeps_await be) |].
    intros results. by intros ?; apply clients_grow_refl.
  - intros params; split; [by eapply keeps_deleteVector|].
    unfold deleteVector. apply cached_after_get. intros c.
    by_relation (keeps_await be).
  - intros params; split; [by eapply keeps_deleteVectors|].
    unfold deleteVectors. apply cached_after_get. intros c.
    assert (keeps clients_grow
              (deleteVectors_by_filter rt be c (dvs_indexName params)
                 (dvs_filter params))) as Hfilter.
    { unfold deleteVectors_by_filter.
      destruct (dvs_filter params) as [f|]; [|by intros ?; apply clients_grow_refl].
      eapply keeps_bind; [apply (Hrel ""%string) | by eapply Hquery |].
      intros results.
      destruct (decide (0 < length results));
        [by_relation (keeps_await be) | by intros ?; apply clients_grow_refl]. }
    destruct (dvs_ids params) as [ids|]; [|exact Hfilter].
    destruct (decide (0 < length ids)); [|exact Hfilter].
    by_relation (keeps_deleteVectors_loop be).
  - intros params. by eapply keeps_updateVector.
  - intros indexName. by eapply keeps_describeIndex.
  - intros params. unfold createIndex, bind, await.
    by destruct (answer be (st_trace st) _).
  - intros indexName. unfold deleteIndex, bind, await.
    by destruct (answer be (st_trace st) _).
Qed.

End cache_properties.

(** ** Listing and describing indexes *)

Section index_more.
Context {number : Type} (rt : JSRuntime number) (be : Backend number).

Lemma push_all {A : Type} (l acc : list A) :
  fold_left (fun indexes name => indexes ++ [name]) l acc = acc ++ l.
Proof.
  revert acc. induction l as [|a l IH]; intros acc; simpl.
  - by rewrite app_nil_r.
  - by rewrite IH, <- app_assoc.
Qed.

Lemma listIndexes_run (st : AdapterState number) :
  listIndexes be st
  = (match be (st_trace st) ListIndexes with
     | inl e => Rejected (BackendFailure e)
     | inr names => Fulfilled names
     end,
     {| st_trace := st_trace st ++ [ListIndexes];
        st_searchClients := st_searchClients st;
        st_uuids := st_uuids st |}).
Proof.
  unfold listIndexes, bind, await, answer, ret.
  destruct (be (st_trace st) ListIndexes) as [e|names]; [done|].
  by rewrite push_all.
Qed.

(** X12.  [listIndexes] makes one call to the service and returns the names
    the service gave, all of them and in the order given; when the service
    fails, it fails with that error.  It leaves the cache of clients as it
    was. *)
Theorem listIndexes_returns_service_names (st : AdapterState number) :
  ∃ st',
    listIndexes be st
    = (match be (st_trace st) ListIndexes with
       | inl e => Rejected (BackendFailure e)
       | inr names => Fulfilled names
       end, st')
    ∧ st_trace st' = st_trace st ++ [ListIndexes]
    ∧ st_searchClients st' = st_searchClients st.
Proof. rewrite listIndexes_run. by eexists. Qed.

Lemma describeIndex_dimension_skip (before rest : list SearchField) :
  Forall (fun f => field_name f ≠ "vector"
                   ∨ field_vectorSearchDimensions f = None) before →
  describeIndex_dimension (before ++ rest) = describeIndex_dimension rest.
Proof.
  induction 1 as [|f before Hf _ IH]; simpl; [done|].
  destruct (field_vectorSearchDimensions f) as [d|]; [|done].
  destruct Hf as [Hname|?]; [|done].
  apply String.eqb_neq in Hname. by rewrite Hname.
Qed.

(** X13.  [describeIndex] asks for the schema and then for the number of
    documents.  The dimension it reports is read off the first field that is
    named [vector] and has the property [vectorSearchDimensions]: fields
    before it that have another name or lack the property are passed over,
    fields after it are not looked at, and a property without a value
    reads as [0]. *)
Theorem describeIndex_reads_first_vector_field
    (indexName : string) (st : AdapterState number) (index : SearchIndex)
    (before after : list SearchField) (field : SearchField)
    (d : option nat) (count : nat) :
  be (st_trace st) (GetIndex indexName) = inr index →
  be (st_trace st ++ [GetIndex indexName]) (GetDocumentsCount indexName)
  = inr count →
  index_fields index = Some (before ++ field :: after) →
  Forall (fun f => field_name f ≠ "vector"
                   ∨ field_vectorSearchDimensions f = None) before →
  field_name field = "vector" →
  field_vectorSearchDimensions field = Some d →
  ∃ stats st',
    describeIndex be indexName st = (Fulfilled stats, st')
    ∧ stats_dimension stats = default 0 d
    ∧ stats_count stats = count
    ∧ st_trace st'
      = st_trace st ++ [GetIndex indexName; GetDocumentsCount indexName].
Proof.
  intros Hindex Hcount Hfields Hbefore Hname Hdim.
  unfold describeIndex, bind, await, answer, getSearchClient, ret; simpl.
  rewrite Hindex; simpl. rewrite Hcount.
  eexists _, _. split; [reflexivity|]. simpl.
  rewrite Hfields; simpl. rewrite describeIndex_dimension_skip by done.
  simpl. rewrite Hdim. apply String.eqb_eq in Hname. rewrite Hname.
  by rewrite <- app_assoc.
Qed.

(** X14.  Without a field that is named [vector] and has the property
    [vectorSearchDimensions], and also without any field, [describeIndex]
    reports the dimension [0]; and when the service fails on the schema,
    [describeIndex] fails with that error, asks for no count and caches no
    client. *)
Theorem describeIndex_without_vector_field
    (indexName : string) (st : AdapterState number) :
  match be (st_trace st) (GetIndex indexName) with
  | inl e =>
      describeIndex be indexName st
      = (Rejected (BackendFailure e),
         {| st_trace := st_trace st ++ [GetIndex indexName];
            st_searchClients := st_searchClients st;
            st_uuids := st_uuids st |})
  | inr index =>
      Forall (fun f => field_name f ≠ "vector"
                       ∨ field_vectorSearchDimensions f = None)
        (default [] (index_fields index)) →
      ∀ stats, (describeIndex be indexName st).1 = Fulfilled stats →
        stats_dimension stats = 0
  end.
Proof.
  unfold describeIndex, bind, await, answer, getSearchClient, ret; simpl.
  destruct (be (st_trace st) (GetIndex indexName)) as [e|index]; [done|].
  simpl. intros Hfields stats.
  destruct (be _ (GetDocumentsCount indexName)) as [e|count]; [done|].
  intros [= <-]; simpl.
  rewrite <- (app_nil_r (default [] (index_fields index))).
  by rewrite describeIndex_dimension_skip.
Qed.

End index_more.

(** ** The parser: pages, tables and the order of the cells *)

Section processor_more.
Context {number : Type}.

Local Abbreviation slots := (fmap (M := list) (fmap (M := list) Some)).

Lemma parse_pages_spec (input : list (DocumentPage number))
    (pages : list (PageContent number)) :
  parse_pages input pages = pages ++ map parse_page input.
Proof.
  revert pages. induction input as [|page input IH]; intros pages; simpl.
  - by rewrite app_nil_r.
  - by rewrite IH, <- app_assoc.
Qed.

Lemma parse_tables_spec (input : list DocumentTable) :
  ∀ tables : list TableContent,
    ∃ tcs, parse_tables input tables = Fulfilled (tables ++ tcs)
           ∧ Forall2 (fun t tc => parse_table t = Fulfilled tc) input tcs.
Proof.
  induction input as [|table input IH]; intros tables; simpl.
  - exists []. by rewrite app_nil_r.
  - destruct (parse_table_grid table) as (tc & Htc & _). rewrite Htc.
    destruct (IH (tables ++ [tc])) as (tcs & -> & Htcs).
    exists (tc :: tcs). rewrite <- app_assoc. by split; [|constructor].
Qed.

(** X15.  The parser returns one page for each page of the raw result, in
    the same order, each with the page's number, width and height, and with
    the contents of its lines joined by line feeds as content (the empty
    string without lines).  The page count of the metadata is the number of
    pages returned, and the content is that of the raw result, or the empty
    string. *)
Theorem parsed_pages_follow_input (modelId : string) (now : nat)
    (result : AnalyzeResultOutput number) :
  ∃ doc,
    parseAnalyzeResult modelId now result = Fulfilled doc
    ∧ Forall2
        (fun page pc =>
           pc_pageNumber pc = page_pageNumber page
           ∧ pc_width pc = page_width page
           ∧ pc_height pc = page_height page
           ∧ pc_content pc
             = js_join newline
                 (map line_content (default [] (page_lines page))))
        (default [] (result_pages result)) (pd_pages doc)
    ∧ dm_pageCount (pd_metadata doc) = length (pd_pages doc)
    ∧ dm_modelId (pd_metadata doc) = modelId
    ∧ pd_content doc = default "" (result_content result).
Proof.
  unfold parseAnalyzeResult.
  destruct (parse_tables_spec (default [] (result_tables result)) [])
    as (tcs & -> & _).
  eexists. split; [reflexivity|]. simpl.
  rewrite parse_pages_spec; simpl. split_and!; [| |done..].
  - induction (default [] (result_pages result)) as [|page pages IH];
      constructor; [|exact IH].
    unfold parse_page; simpl. split_and!; [done..|].
    by destruct (page_lines page).
  - rewrite length_map. by destruct (result_pages result).
Qed.

(** X16.  The parser returns no list of tables exactly when the raw result
    has no table, be it without a list of tables or with an empty one; it
    never returns an empty list.  Otherwise it returns one table for each
    table of the raw result, in the same order, each with the page number
    of the first bounding region of its table, and with none when the table
    has no bounding region. *)
Theorem parsed_tables_follow_input (modelId : string) (now : nat)
    (result : AnalyzeResultOutput number) :
  ∃ doc,
    parseAnalyzeResult modelId now result = Fulfilled doc
    ∧ (pd_tables doc = None ↔ default [] (result_tables result) = [])
    ∧ pd_tables doc ≠ Some []
    ∧ Forall2
        (fun table tc =>
           tc_pageNumber tc
           = region_pageNumber
               <$> head (default [] (table_boundingRegions table)))
        (default [] (result_tables result)) (default [] (pd_tables doc)).
Proof.
  unfold parseAnalyzeResult.
  destruct (parse_tables_spec (default [] (result_tables result)) [])
    as (tcs & -> & Htcs).
  eexists. split; [reflexivity|]. simpl.
  assert (Forall2
            (fun table tc =>
               tc_pageNumber tc
               = region_pageNumber
                   <$> head (default [] (table_boundingRegions table)))
            (default [] (result_tables result)) tcs) as Hpages.
  { eapply Forall2_impl; [exact Htcs|]. intros table tc. unfold parse_table.
    destruct (fill_cells _ _ _ _); [|done]. intros [= <-]; simpl.
    by destruct (table_boundingRegions table) as [[|region regions]|]. }
  destruct (decide (0 < length tcs)) as [Hpos|Hzero]; simpl.
  - split_and!; [|by destruct tcs; [simpl in Hpos; lia|]|done].
    split; [done|]. intros Hnil. rewrite Hnil in Htcs.
    apply Forall2_nil_inv_l in Htcs as ->. simpl in Hpos. lia.
  - destruct tcs; [|simpl in Hzero; lia].
    apply Forall2_nil_inv_r in Htcs. by rewrite Htcs.
Qed.

Lemma last_reported_permutation (r c : nat)
    (reported reported' : list DocumentTableCell) :
  reported ≡ₚ reported' →
  NoDup (map (fun cell => (cell_rowIndex cell, cell_columnIndex cell))
           reported) →
  ∀ current,
    last_reported r c reported current = last_reported r c reported' current.
Proof.
  induction 1 as [|x l l' Hperm IH|x y l|l l' l'' H1 IH1 H2 IH2];
    intros Hnodup current; simpl.
  - done.
  - simpl in Hnodup. apply NoDup_cons in Hnodup as [_ Hnodup]. by apply IH.
  - simpl in Hnodup. apply NoDup_cons in Hnodup as [Hxy _].
    f_equal.
    destruct (decide (r = cell_rowIndex y ∧ c = cell_columnIndex y))
      as [[-> ->]|?];
      destruct (decide (_ = cell_rowIndex x ∧ _ = cell_columnIndex x))
        as [[Hr Hc]|?]; try done.
    exfalso. apply Hxy. rewrite Hr, Hc. apply list_elem_of_here.
  - rewrite IH1 by done. apply IH2.
    eapply NoDup_Permutation_proper; [|exact Hnodup].
    symmetry. by apply (fmap_Permutation _ l l').
Qed.

(** X17.  When no two reported cells name the same position, the order in
    which the service reports the cells does not matter: a table with the
    same cells in another order is parsed to the same table. *)
Theorem parse_table_cell_order (table : DocumentTable)
    (reported reported' : list DocumentTableCell) :
  table_cells table = Some reported →
  reported ≡ₚ reported' →
  NoDup (map (fun cell => (cell_rowIndex cell, cell_columnIndex cell))
           reported) →
  parse_table table
  = parse_table {| table_rowCount := table_rowCount table;
                   table_columnCount := table_columnCount table;
                   table_cells := Some reported';
                   table_boundingRegions := table_boundingRegions table |}.
Proof.
  intros Hcells Hperm Hnodup. unfold parse_table; simpl. rewrite Hcells; simpl.
  rewrite init_cells_spec, app_nil_l, tabulate_empty, !fill_cells_tabulate.
  do 3 f_equal. apply tabulate_ext. intros r c _ _.
  by apply last_reported_permutation.
Qed.

End processor_more.

(** ** The tools of the knowledge base *)

Section rag_properties.
Context {number : Type} (rt : JSRuntime number) (be : Backend number).
Variable number_of_nat : nat → number.

(** Step 5 of [ingestDocumentTool], from the state [st1] that step 4 left:
    the uploads that follow, and what the uploaded documents are. *)
Lemma ingest_upsert_run (documentUrl indexName : string)
    (metadata : option (gmap string (JSValue number)))
    (processedDoc : ProcessedDocument number) (chunks : list string)
    (embeddings : list (list number)) (st1 : AdapterState number) :
  let params :=
    {| up_indexName := indexName;
       up_vectors := embeddings;
       up_metadata :=
         Some (imap (ingest_metadata number_of_nat documentUrl metadata
                       processedDoc) chunks);
       up_ids := None;
       up_deleteFilter := None |} in
  ∃ batches,
    st_trace (upsert rt be params st1).2
    = st_trace st1 ++ map (UploadDocuments indexName) batches
    ∧ ∀ batch d, batch ∈ batches → d ∈ batch →
        ∃ k, embeddings !! k = Some (doc_vector d)
             ∧ let meta :=
                 default ∅
                   (ingest_metadata number_of_nat documentUrl metadata
                      processedDoc k <$> chunks !! k) in
               doc_metadata d = JSON_stringify rt (JObj meta)
               ∧ doc_text d = js_coalesce (js_get meta "text") (JStr "").
Proof.
  intros params.
  destruct (upsert_uploaded_documents rt be params st1
              (getSearchClient indexName st1).2 eq_refl)
    as (documents & batches & rest & Hvec & Hmeta & Hrest & Htrace).
  exists batches. split; [exact Htrace|].
  unfold params in Hvec, Hmeta. simpl in Hvec, Hmeta.
  assert (Forall
            (fun d =>
               ∃ k, embeddings !! k = Some (doc_vector d)
                    ∧ let meta :=
                        default ∅
                          (ingest_metadata number_of_nat documentUrl metadata
                             processedDoc k <$> chunks !! k) in
                      doc_metadata d = JSON_stringify rt (JObj meta)
                      ∧ doc_text d
                        = js_coalesce (js_get meta "text") (JStr ""))
            documents) as Hdocs.
  { apply Forall_forall. intros d Hin.
    apply list_elem_of_lookup in Hin as [k Hk]. exists k. split.
    - rewrite <- Hvec.
      change (map doc_vector documents) with (doc_vector <$> documents).
      by rewrite list_lookup_fmap, Hk.
    - specialize (Hmeta k d Hk).
      by rewrite list_lookup_imap in Hmeta. }
  rewrite Hrest in Hdocs. apply Forall_app in Hdocs as [Hdocs _].
  apply Forall_concat in Hdocs.
  intros batch d Hbatch Hd.
  rewrite Forall_forall in Hdocs. specialize (Hdocs batch Hbatch).
  rewrite Forall_forall in Hdocs. exact (Hdocs d Hd).
Qed.

Lemma bind_ret_state {A B : Type} (c : M number A) (f : A → B)
    (st : AdapterState number) :
  (bind c (fun a => ret (f a)) st).2 = (c st).2.
Proof. unfold bind, ret. by destruct (c st) as [[a|e] st']. Qed.

Lemma bind_ret_outcome {A B : Type} (c : M number A) (f : A → B)
    (st : AdapterState number) :
  (bind c (fun a => ret (f a)) st).1
  = match (c st).1 with
    | Fulfilled a => Fulfilled (f a)
    | Rejected e => Rejected e
    end.
Proof. unfold bind, ret. by destruct (c st) as [[a|e] st']. Qed.

Lemma bind_listIndexes {B : Type} (k : list string → M number B)
    (st : AdapterState number) :
  bind (listIndexes be) k st
  = let st0 := {| st_trace := st_trace st ++ [ListIndexes];
                  st_searchClients := st_searchClients st;
                  st_uuids := st_uuids st |} in
    match be (st_trace st) ListIndexes with
    | inl e => (Rejected (BackendFailure e), st0)
    | inr names => k names st0
    end.
Proof.
  unfold bind. rewrite listIndexes_run.
  by destruct (be (st_trace st) ListIndexes).
Qed.

Lemma bind_createIndex {B : Type} (params : CreateIndexParams)
    (k : unit → M number B) (st : AdapterState number) :
  bind (createIndex be params) k st
  = let create :=
      CreateOrUpdateIndex
        (createIndex_index (ci_indexName params) (ci_dimension params)
           (default cosine (ci_metric params))) in
    match be (st_trace st) create with
    | inl e =>
        (Rejected (BackendFailure e),
         {| st_trace := st_trace st ++ [create];
            st_searchClients := st_searchClients st;
            st_uuids := st_uuids st |})
    | inr _ =>
        k tt {| st_trace := st_trace st ++ [create];
                st_searchClients :=
                  st_searchClients st ∖ {[ci_indexName params]};
                st_uuids := st_uuids st |}
    end.
Proof.
  unfold createIndex, bind, await, answer, searchClients_delete; simpl.
  by destruct (be (st_trace st) _).
Qed.

(** X18.  [ingestDocumentTool] first lists the indexes.  When the index of
    the call is listed, it creates nothing and goes on to the uploads.
    When it is not, the tool creates it with the length of the first
    embedding as dimension and the cosine metric, and goes on to the
    uploads only if the creation succeeds; without any embedding it raises
    a [TypeError] before anything is created or uploaded.  When the listing
    fails, the tool fails with that error and does nothing else. *)
Theorem ingest_creates_missing_index (documentUrl indexName : string)
    (metadata : option (gmap string (JSValue number)))
    (processedDoc : ProcessedDocument number) (chunks : list string)
    (embeddings : list (list number)) (st : AdapterState number) :
  let r := ingestDocumentTool_store rt be number_of_nat documentUrl indexName
             metadata processedDoc chunks embeddings st in
  let create first :=
    CreateOrUpdateIndex (createIndex_index indexName (length first) cosine) in
  match be (st_trace st) ListIndexes with
  | inl e =>
      r.1 = Rejected (BackendFailure e)
      ∧ st_trace r.2 = st_trace st ++ [ListIndexes]
  | inr indexes =>
      if decide (indexName ∈ indexes) then
        ∃ batches,
          st_trace r.2
          = st_trace st
            ++ ListIndexes :: map (UploadDocuments indexName) batches
      else
        match embeddings with
        | [] =>
            (∃ msg, r.1 = Rejected (TypeError msg))
            ∧ st_trace r.2 = st_trace st ++ [ListIndexes]
        | first :: _ =>
            match be (st_trace st ++ [ListIndexes]) (create first) with
            | inl e =>
                r.1 = Rejected (BackendFailure e)
                ∧ st_trace r.2 = st_trace st ++ [ListIndexes; create first]
            | inr _ =>
                ∃ batches,
                  st_trace r.2
                  = st_trace st
                    ++ ListIndexes :: create first
                       :: map (UploadDocuments indexName) batches
            end
        end
  end.
Proof.
  intros r create. subst r. unfold ingestDocumentTool_store.
  rewrite bind_listIndexes; cbv zeta.
  destruct (be (st_trace st) ListIndexes) as [e|indexes]; [done|].
  destruct (decide (indexName ∈ indexes)) as [Hin|Hout].
  - destruct (decide _) as [_|?]; [|done].
    change (bind (ret tt) ?k ?s) with (k tt s). cbv beta.
    rewrite bind_ret_state.
    destruct (ingest_upsert_run documentUrl indexName metadata processedDoc
                chunks embeddings
                {| st_trace := st_trace st ++ [ListIndexes];
                   st_searchClients := st_searchClients st;
                   st_uuids := st_uuids st |}) as (batches & Htrace & _).
    exists batches. rewrite Htrace; simpl. by rewrite <- app_assoc.
  - destruct (decide _) as [?|_]; [done|].
    destruct embeddings as [|first rest].
    { split; [by eexists|done]. }
    rewrite bind_createIndex; cbv zeta. simpl ci_indexName.
    simpl ci_dimension. simpl ci_metric. simpl default.
    cbn [st_trace st_searchClients st_uuids]. fold (create first).
    destruct (be (st_trace st ++ [ListIndexes]) (create first)) as [e|u].
    { split; [done|]. simpl. by rewrite <- app_assoc. }
    rewrite bind_ret_state.
    destruct (ingest_upsert_run documentUrl indexName metadata processedDoc
                chunks (first :: rest)
                {| st_trace := (st_trace st ++ [ListIndexes])
                               ++ [create first];
                   st_searchClients := st_searchClients st ∖ {[indexName]};
                   st_uuids := st_uuids st |}) as (batches & Htrace & _).
    exists batches. rewrite Htrace; simpl. by rewrite <- !app_assoc.
Qed.




Lemma query_loop_Forall2 (iv : bool)
    (P : SearchHit number → QueryResult number → Prop) :
  (∀ h r, query_result rt iv h = Fulfilled r → P h r) →
  ∀ hits results,
    query_loop rt iv hits [] = Fulfilled results → Forall2 P hits results.
Proof.
  intros HP. induction hits as [|h hits IH]; intros results; simpl.
  - by intros [= <-].
  - destruct (query_result rt iv h) as [r|e] eqn:Hr; [|done].
    rewrite query_loop_acc.
    destruct (query_loop rt iv hits []) as [rs|e]; [|done].
    intros [= <-]. constructor; [by apply HP | by apply IH].
Qed.

Lemma query_result_text (iv : bool) (h : SearchHit number)
    (r : QueryResult number) :
  query_result rt iv h = Fulfilled r →
  qr_id r = hit_id h
  ∧ js_optional_get (qr_metadata r) "text"
    = (if js_truthy rt (hit_text h) then hit_text h
       else js_optional_get (query_metadata rt h) "text")
  ∧ (js_truthy rt (hit_text h) = false → qr_metadata r = query_metadata rt h).
Proof.
  unfold query_result.
  destruct (js_truthy rt (hit_text h)) eqn:Htext.
  - destruct (query_metadata rt h); simpl; try done; intros [= <-]; simpl;
      unfold js_get; by rewrite lookup_insert.
  - by intros [= <-].
Qed.

(** X20.  [searchDocumentsTool] makes one search, for the [topK] nearest
    neighbours of the embedding of the query, without a filter and without
    asking for the vectors.  It returns one result for each hit, in the
    order of the hits, with the id of the hit; the text of a result is the
    stored text of the hit when that is truthy, and otherwise the [text] of
    the stored metadata of the hit, which are then returned as they are. *)
Theorem search_tool_returns_stored_text (indexName : string) (topK : nat)
    (embedding : list number) (st : AdapterState number) :
  let r := searchDocumentsTool_results rt be indexName topK embedding st in
  let options :=
    {| so_queries := [ {| vq_kind := "vector";
                          vq_vector := embedding;
                          vq_kNearestNeighborsCount := topK;
                          vq_fields := ["vector"] |} ];
       so_filter := None;
       so_top := topK;
       so_select := ["id"; "metadata"; "text"] |} in
  st_trace r.2 = st_trace st ++ [Search indexName "*" options]
  ∧ match be (st_trace st) (Search indexName "*" options) with
    | inl e => r.1 = Rejected (BackendFailure e)
    | inr hits =>
        ∀ found, r.1 = Fulfilled found →
          Forall2
            (fun h f =>
               found_id f = hit_id h
               ∧ found_text f
                 = (if js_truthy rt (hit_text h) then hit_text h
                    else js_optional_get (query_metadata rt h) "text")
               ∧ (js_truthy rt (hit_text h) = false →
                  found_metadata f = query_metadata rt h))
            hits found
    end.
Proof.
  intros r options. subst r. unfold searchDocumentsTool_results.
  rewrite bind_ret_state, bind_ret_outcome, query_run. simpl.
  change (query_options _) with options.
  split; [done|].
  destruct (be (st_trace st) (Search indexName "*" options)) as [e|hits];
    [done|].
  intros found.
  destruct (query_loop rt false hits []) as [results|e] eqn:Hloop; [|done].
  intros [= <-].
  pose proof (query_loop_Forall2 false _ (query_result_text false) hits
                results Hloop) as Hall.
  clear Hloop. induction Hall as [|h q hits results Hq _ IH]; simpl;
    constructor; [|exact IH].
  by destruct Hq as (? & ? & ?).
Qed.

End rag_properties.

(* ===================================================================== *)
(** * Part III.  The properties on the scenarios                         *)
(* ===================================================================== *)

Import Reference Scenario.

Lemma uuid_inj (m n : nat) : uuid m = uuid n → m = n.
Proof.
  unfold uuid. intros H. apply (inj pretty).
  by simplify_eq/=.
Qed.

Example table_2_2_parsed :
  tc_cells <$> (match parse_table table_2_2 with
                | Fulfilled tc => Some tc
                | Rejected _ => None
                end)
  = Some [[Some "A"; Some ""]; [Some ""; Some ""]].
Proof. reflexivity. Qed.

Example many_records_two_batches :
  map (fun c => match c with
                | UploadDocuments _ documents => length documents
                | _ => 0
                end)
    (st_trace (upsert runtime memory many_records initial).2)
  = [1000; 1].
Proof. vm_compute. reflexivity. Qed.

(** C1: on 1001 records with the second upload rejected, the call is
    rejected after the two uploads. *)
Lemma upsert_batch_failure_aborts_witness :
  let be := failing_upload 1 "boom" in
  (upsert runtime be many_records initial).1 = Rejected (BackendFailure "boom")
  ∧ st_trace (upsert runtime be many_records initial).2
    = st_trace many_ready
        ++ map (UploadDocuments "documents") [take 1000 many_documents]
        ++ [UploadDocuments "documents"
              (take batchSize (drop 1000 many_documents))].
Proof.
  intros be.
  apply (upsert_batch_failure_aborts runtime be many_records initial
           {| st_trace := []; st_searchClients := {["documents"]};
              st_uuids := 0 |}
           many_ready many_documents).
  - vm_compute. reflexivity.
  - vm_compute. reflexivity.
  - vm_compute. reflexivity.
  - vm_compute. discriminate.
  - constructor; [vm_compute; reflexivity | constructor].
  - simpl. split; [reflexivity | exact I].
  - vm_compute. reflexivity.
Defined.

(** C1, as the spec has it, fails: with the second upload rejected, after
    the first one was accepted with its 1000 documents, the caller gets the
    same rejected promise as with the first upload rejected, when nothing
    was uploaded. *)
Lemma upsert_batch_failure_loses_confirmed_ids :
  let run k := upsert runtime (failing_upload k "boom") many_records initial in
  (run 1).1 = Rejected (BackendFailure "boom")
  ∧ st_trace (run 1).2
    = [UploadDocuments "documents" (take 1000 many_documents);
       UploadDocuments "documents" (drop 1000 many_documents)]
  ∧ failing_upload 1 "boom" []
      (UploadDocuments "documents" (take 1000 many_documents)) = inr tt
  ∧ length (take 1000 many_documents) = 1000
  ∧ (run 0).1 = (run 1).1.
Proof. vm_compute. repeat split. Qed.

(** C2 on two records without explicit ids. *)
Lemma upsert_returns_ids_witness :
  ∃ documents batches st',
    upsert runtime memory two_records initial
    = (Fulfilled (map doc_id documents), st')
    ∧ length documents = 2
    ∧ map doc_vector documents = up_vectors two_records
    ∧ st_trace st' = [] ++ map (UploadDocuments "documents") batches
    ∧ concat batches = documents
    ∧ batched batches
    ∧ (up_ids two_records = None →
         map doc_id documents = map uuid (seq 0 2)
         ∧ NoDup (map doc_id documents))
    ∧ (∀ ids, up_ids two_records = Some ids → length ids = 2 →
         map doc_id documents = ids).
Proof.
  apply (upsert_returns_ids runtime memory two_records initial
           {| st_trace := []; st_searchClients := {["documents"]};
              st_uuids := 0 |}).
  - vm_compute. reflexivity.
  - intros history batch. reflexivity.
  - exact uuid_inj.
Defined.



Example malformed_hit_degraded :
  (query runtime (answering [malformed_hit; good_hit]) a_query initial).1
  = Fulfilled
      [ {| qr_id := "a"; qr_score := 2%Z;
           qr_metadata := JObj {["text" := JStr "some text"]};
           qr_vector := None |};
        {| qr_id := "b"; qr_score := 1%Z;
           qr_metadata := JObj {["source" := JStr "a.pdf";
                                 "text" := JStr "hello"]};
           qr_vector := None |} ].
Proof. vm_compute. reflexivity. Qed.

(** Metadata that parses, but not to an object or an array, is another
    matter: with a stored text, the assignment of [text] raises. *)
Example null_metadata_with_text_raises :
  query_result runtime false
    {| hit_score := None; hit_id := "c"; hit_metadata := JStr "null";
       hit_text := JStr "x"; hit_vector := None |}
  = Rejected (TypeError "cannot set a property on a primitive value").
Proof. reflexivity. Qed.


(** C6, as the spec has it, fails: with neither an id nor a filter the two
    operations succeed and call nothing, and with both they succeed on the
    id path. *)
Lemma update_delete_without_target_succeed :
  updateVector runtime memory (update_with None None) initial
  = (Fulfilled tt, initial)
  ∧ (deleteVectors runtime memory (delete_with None None) initial).1
    = Fulfilled tt
  ∧ st_trace (deleteVectors runtime memory (delete_with None None) initial).2
    = []
  ∧ (updateVector runtime memory (update_with (Some "a") (Some a_filter))
       initial).1 = Fulfilled tt
  ∧ (deleteVectors runtime memory (delete_with (Some ["a"]) (Some a_filter))
       initial).1 = Fulfilled tt.
Proof. vm_compute. repeat split. Qed.

(** C6, as the code has it, on calls with neither and with both. *)
Lemma update_delete_dispatch_witness :
  updateVector runtime memory (update_with None None) initial
  = (Fulfilled tt, initial)
  ∧ st_trace (deleteVectors runtime memory (delete_with None None) initial).2
    = st_trace initial
  ∧ st_trace (updateVector runtime memory
                (update_with (Some "a") (Some a_filter)) initial).2
    = [MergeDocuments "documents" [updateVector_document runtime "a" an_update]]
  ∧ deleteVectors runtime memory (delete_with (Some ["a"]) (Some a_filter))
      initial
    = deleteVectors runtime memory (delete_with (Some ["a"]) None) initial.
Proof.
  destruct (update_delete_dispatch runtime memory (update_with None None)
              (delete_with None None) initial) as (Hu & Hd & _).
  destruct (update_delete_dispatch runtime memory
              (update_with (Some "a") (Some a_filter))
              (delete_with (Some ["a"]) (Some a_filter)) initial)
    as (_ & _ & Hu' & Hd').
  split; [apply Hu; reflexivity|].
  split; [apply Hd; [left|]; reflexivity|].
  split; [apply (Hu' "a" a_filter); reflexivity|].
  apply (Hd' ["a"] a_filter); [reflexivity | simpl; lia | reflexivity].
Defined.


(** C8, as the spec has it, fails: a raw result whose pages are numbered 2
    and 1 parses to pages numbered 2 and 1. *)
Lemma parsed_pages_not_ordered :
  ∃ doc,
    parseAnalyzeResult "prebuilt-layout" 0 pages_2_1 = Fulfilled doc
    ∧ map pc_pageNumber (pd_pages doc) = [2; 1]
    ∧ ¬ page_numbers_ordered (map pc_pageNumber (pd_pages doc)).
Proof.
  eexists. split; [reflexivity|]. split; [reflexivity|].
  intros [_ Hle]. specialize (Hle 0 2 1 eq_refl eq_refl). lia.
Qed.

(** C8, as the code has it, on pages numbered 1 and 2. *)
Lemma parsed_pages_keep_page_numbers_witness :
  ∃ doc,
    parseAnalyzeResult "prebuilt-layout" 0 pages_1_2 = Fulfilled doc
    ∧ map pc_pageNumber (pd_pages doc) = [1; 2]
    ∧ page_numbers_ordered (map pc_pageNumber (pd_pages doc)).
Proof.
  destruct (parsed_pages_keep_page_numbers "prebuilt-layout" 0 pages_1_2)
    as (doc & Hdoc & Hnumbers & Hordered).
  exists doc. split; [exact Hdoc|]. split; [exact Hnumbers|].
  apply Hordered. split.
  - repeat constructor.
  - intros [|[|i]] a b; simpl; intros [= <-] [= <-]. lia.
Defined.

(** C9 on the service in memory. *)
Lemma createIndex_describeIndex_roundtrip_witness :
  let st := (createIndex memory index_params initial).2 in
  (describeIndex memory "documents" st).1
  = Fulfilled {| stats_dimension := 3072;
                 stats_count := 0;
                 stats_metric := dotproduct |}.
Proof.
  intros st.
  apply (createIndex_describeIndex_roundtrip memory index_params initial st
           (createIndex_index "documents" 3072 dotproduct) 0).
  - reflexivity.
  - reflexivity.
  - reflexivity.
Defined.

(** C10 on an index of dimension 3072. *)
Lemma filter_resolution_vector_is_1536_zeros_witness :
  let st := after_two_records in
  (∃ options q rest,
     st_trace (updateVector runtime memory
                 (update_with None (Some a_filter)) st).2
     = st_trace st ++ Search "documents" "*" options :: rest
     ∧ so_queries options = [q]
     ∧ vq_vector q = replicate 1536 (zero runtime)
     ∧ (length (vq_vector q) = 3072 ↔ 3072 = 1536))
  ∧ (∃ options q rest,
       st_trace (deleteVectors runtime memory
                   (delete_with None (Some a_filter)) st).2
       = st_trace st ++ Search "documents" "*" options :: rest
       ∧ so_queries options = [q]
       ∧ vq_vector q = replicate 1536 (zero runtime)
       ∧ (length (vq_vector q) = 3072 ↔ 3072 = 1536)).
Proof.
  intros st.
  destruct (filter_resolution_vector_is_1536_zeros runtime memory
              (update_with None (Some a_filter))
              (delete_with None (Some a_filter)) a_filter st 3072)
    as [Hupdate Hdelete].
  split.
  - apply Hupdate. split; reflexivity.
  - apply Hdelete. split; [left; reflexivity | reflexivity].
Defined.

(** ** The further properties on the scenarios *)

Import FurtherScenario.

(** X1: two ids and a filter, on the service in memory. *)
Lemma deleteVectors_by_ids_batches_witness :
  ∃ out st' batches,
    deleteVectors runtime memory (delete_with (Some ["a"; "b"]) (Some a_filter))
      initial = (out, st')
    ∧ batches ≠ []
    ∧ batched batches
    ∧ st_trace st'
      = st_trace initial ++ map (DeleteDocuments "documents") batches
    ∧ match out with
      | Fulfilled _ =>
          concat batches = ["a"; "b"]
          ∧ accepted_deletions memory (st_trace initial) "documents" batches
      | Rejected err =>
          ∃ confirmed failed remaining e,
            batches = confirmed ++ [failed]
            ∧ ["a"; "b"] = concat confirmed ++ failed ++ remaining
            ∧ accepted_deletions memory (st_trace initial) "documents"
                confirmed
            ∧ memory
                (st_trace initial
                 ++ map (DeleteDocuments "documents") confirmed)
                (DeleteDocuments "documents" failed) = inl e
            ∧ err = BackendFailure e
      end.
Proof.
  apply (deleteVectors_by_ids_batches runtime memory
           (delete_with (Some ["a"; "b"]) (Some a_filter)) ["a"; "b"] initial).
  - reflexivity.
  - simpl. lia.
Defined.

(** X3: two records, one upload. *)
Lemma upsert_uploads_by_batch_witness :
  ∃ ids batches st',
    upsert runtime memory two_records initial = (Fulfilled ids, st')
    ∧ st_trace st'
      = st_trace ready ++ map (UploadDocuments "documents") batches
    ∧ length batches = (2 + batchSize - 1) / batchSize
    ∧ ∀ j batch, batches !! j = Some batch →
        map doc_vector batch
        = take batchSize (drop (j * batchSize) (up_vectors two_records))
        ∧ map doc_id batch = take batchSize (drop (j * batchSize) ids).
Proof.
  apply (upsert_uploads_by_batch runtime memory two_records initial ready).
  - vm_compute. reflexivity.
  - intros history batch. reflexivity.
Defined.

(** X4: one explicit id for two vectors. *)
Lemma upsert_fills_missing_ids_witness :
  (upsert runtime memory partly_named initial).1
  = Fulfilled (["first"] ++ map uuid (seq 0 (2 - 1))).
Proof.
  apply (upsert_fills_missing_ids runtime memory partly_named ["first"]
           initial ready).
  - reflexivity.
  - simpl. lia.
  - vm_compute. reflexivity.
  - intros history batch. reflexivity.
Defined.

(** X6: the uploads of two records. *)
Lemma upsert_uploads_stored_form_witness :
  ∃ batches,
    st_trace (upsert runtime memory two_records initial).2
    = st_trace ready ++ map (UploadDocuments "documents") batches
    ∧ Forall (Forall (stored_form runtime (up_vectors two_records))) batches.
Proof.
  apply (upsert_uploads_stored_form runtime memory two_records initial ready).
  vm_compute. reflexivity.
Defined.


(** X8: a hit with the text [hello] and the metadata of [a.pdf]. *)
Lemma query_text_overrides_metadata_witness :
  ∃ r, good_results !! 0 = Some r
       ∧ qr_metadata r
         = JObj (if js_truthy runtime (hit_text good_hit)
                 then <["text" := hit_text good_hit]> source_a
                 else source_a).
Proof.
  apply (query_text_overrides_metadata runtime (answering [good_hit]) a_query
           initial [good_hit] good_results 0 good_hit "{source:a.pdf;}"
           source_a).
  - reflexivity.
  - vm_compute. reflexivity.
  - reflexivity.
  - reflexivity.
  - discriminate.
  - vm_compute. reflexivity.
Defined.

(** X13: the schema that [createIndex] sent, read back. *)
Lemma describeIndex_reads_first_vector_field_witness :
  ∃ stats st',
    describeIndex memory "documents" after_createIndex = (Fulfilled stats, st')
    ∧ stats_dimension stats = default 0 (Some 3072)
    ∧ stats_count stats = 0
    ∧ st_trace st'
      = st_trace after_createIndex
        ++ [GetIndex "documents"; GetDocumentsCount "documents"].
Proof.
  pose (index := createIndex_index "documents" 3072 dotproduct).
  apply (describeIndex_reads_first_vector_field memory "documents"
           after_createIndex index
           (take 1 (default [] (index_fields index)))
           (drop 2 (default [] (index_fields index)))
           {| field_name := "vector";
              field_type := "Collection(Edm.Single)";
              field_key := None;
              field_searchable := Some true;
              field_filterable := None;
              field_vectorSearchDimensions := Some (Some 3072);
              field_vectorSearchProfileName := Some "vector-profile" |}
           (Some 3072) 0).
  - reflexivity.
  - reflexivity.
  - reflexivity.
  - cbn. constructor; [left; discriminate | constructor].
  - reflexivity.
  - reflexivity.
Defined.

(** X17: the two cells of the diagonal, reported in either order. *)
Lemma parse_table_cell_order_witness :
  parse_table table_diagonal
  = parse_table {| table_rowCount := 2;
                   table_columnCount := 2;
                   table_cells := Some [cell 1 1 "D"; cell 0 0 "A"];
                   table_boundingRegions := None |}.
Proof.
  apply (parse_table_cell_order table_diagonal
           [cell 0 0 "A"; cell 1 1 "D"] [cell 1 1 "D"; cell 0 0 "A"]).
  - reflexivity.
  - apply perm_swap.
  - apply (bool_decide_unpack _). vm_compute. exact I.
Defined.


(** X9: an update that carries the text [bye], by id and by filter. *)
Lemma updateVector_text_by_path_witness :
  let text := js_get {["text" := JStr "bye"]} "text" in
  (∀ id, truthy_id (uv_id (update_with (Some "a") None)) = Some id →
     ∃ d, st_trace (updateVector runtime memory (update_with (Some "a") None)
                      initial).2
          = st_trace initial ++ [MergeDocuments "documents" [d]]
          ∧ merge_id d = id
          ∧ merge_metadata d
            = Some (stringify (JObj {["text" := JStr "bye"]}))
          ∧ merge_text d
            = (if js_truthy runtime text then Some text else None))
  ∧ (∀ filter documents,
       update_by_filter (update_with (Some "a") None) filter →
       last (st_trace (updateVector runtime memory
                         (update_with (Some "a") None) initial).2)
       = Some (MergeDocuments "documents" documents) →
       Forall (fun d =>
                 merge_metadata d
                 = Some (stringify (JObj {["text" := JStr "bye"]}))
                 ∧ merge_text d = Some (js_coalesce text (JStr "")))
         documents).
Proof.
  apply (updateVector_text_by_path runtime memory
           (update_with (Some "a") None) initial {["text" := JStr "bye"]}).
  reflexivity.
Defined.


(** With a property [text] from the caller, the two chunks are stored with
    that text; the index, which the service does not list, is created with
    the length of the first embedding as dimension. *)
Example ingest_with_callers_text :
  map (fun c => match c with
                | UploadDocuments _ documents => map doc_text documents
                | _ => []
                end)
    (st_trace (ingestDocumentTool_store runtime memory Z.of_nat "a.pdf"
                 "documents" (Some a_title) processed ["one"; "two"]
                 [[1%Z; 2%Z]; [3%Z; 4%Z]] initial).2)
  = [[]; []; [JStr "a title"; JStr "a title"]]
  ∧ st_trace (ingestDocumentTool_store runtime memory Z.of_nat "a.pdf"
                "documents" None processed ["one"; "two"] [] initial).2
    = [ListIndexes].
Proof. split; vm_compute; reflexivity. Qed.
